(** * catkit.flow.fwase: the workflow driver, embedded and verified

    The module [catkit/flow/fwase.py] sequences calls to external
    collaborators (structure I/O, a calculator selected by name, a
    prototype finder, the database layer, the encoder) and does a little
    bookkeeping on the Python objects that pass through its hands.

    The embedding keeps that shape:
    - Python objects live in a store and are named by address, so that
      aliasing (a dictionary reached both through [parameters] and through
      [atoms.info], a structure appended to the list of images) is
      visible;
    - the collaborators are one handler, a parameter of the development;
    - the three functions are written in a state-and-exception monad
      that also records what was done, in order. *)

From stdpp Require Import gmap strings list fin_maps.
From Stdlib Require Import ZArith.

(** ** Python values and objects *)

Definition addr := nat.

(** A float literal of the source ([0.05], [1e-2]): [mantissa * 10 ^ exponent]. *)
Record decimal := Dec { mantissa : Z; exponent : Z }.

Inductive val :=
| VNone
| VBool (b : bool)
| VInt (n : Z)
| VFloat (d : decimal)
| VStr (s : string)
| VDict (a : addr).

(** Exceptions.  The first five are raised by the operations of the
    module itself (name lookup, subscripting, attribute access, keyword
    unpacking); collaborators raise what they like. *)
Inductive exn :=
| NameError (name : string)
| KeyError (key : string)
| IndexError
| AttributeError (name : string)
| TypeError (msg : string)
| FileNotFoundError (path : string)
| CalculatorError (code : nat)
| DatabaseError (code : nat).

Inductive constraint :=
| FixAtoms (indices : list nat).

(** [ase.Atoms], as far as this module looks at it.  [positions], [cell]
    and [energy] are payloads the module never inspects; [info] is a
    reference to the free-form metadata dictionary. *)
Record Atoms := mkAtoms {
  positions : list Z;
  cell : list Z;
  _pbc : list bool;
  constraints : list constraint;
  info : addr;
  energy : option Z;
  calc : option addr
}.

(** [atoms.pbc] is the property reading [_pbc]. *)
Definition pbc (a : Atoms) : list bool := _pbc a.

Definition set_constraints (cs : list constraint) (a : Atoms) : Atoms :=
  mkAtoms (positions a) (cell a) (_pbc a) cs (info a) (energy a) (calc a).
Definition set_pbc (p : list bool) (a : Atoms) : Atoms :=
  mkAtoms (positions a) (cell a) p (constraints a) (info a) (energy a) (calc a).
Definition set_info (d : addr) (a : Atoms) : Atoms :=
  mkAtoms (positions a) (cell a) (_pbc a) (constraints a) d (energy a) (calc a).

(** A calculator instance: the classes of its type, most derived first
    (what [isinstance] consults), and its [atoms] attribute. *)
Record Calc := mkCalc {
  calc_mro : list string;
  calc_atoms : addr
}.

#[global] Instance Atoms_inhabited : Inhabited Atoms :=
  populate (mkAtoms [] [] [] [] 0 None None).
#[global] Instance Calc_inhabited : Inhabited Calc :=
  populate (mkCalc [] 0).

(** [np.all] on a boolean array. *)
Definition np_all (p : list bool) : bool := forallb id p.

(** ** The store and the outside world

    A reference always denotes an object: looking one up is total. *)

Record store := Store {
  dicts : gmap addr (gmap string val);
  objs : gmap addr Atoms;
  calcs : gmap addr Calc
}.

Record world (E : Type) := World {
  heap : store;
  ext : E
}.
Arguments World {E}.
Arguments heap {E}.
Arguments ext {E}.

Definition set_dicts (d : gmap addr (gmap string val)) (s : store) : store :=
  Store d (objs s) (calcs s).
Definition set_objs (o : gmap addr Atoms) (s : store) : store :=
  Store (dicts s) o (calcs s).

(** ** Calls to the collaborators *)

Inductive reader := AseIO | DecafIO.

Inductive call : Type -> Type :=
| ase_io_read (path : string) : call addr
| io_read_all (r : reader) (path : string) : call (list addr)
| str_to_class (name : val) : call string
| new_calculator (cls : string) (atoms : addr) (calc_file : option string)
    (kwargs : gmap string val) : call addr
| atoms_get_potential_energy (atoms : addr) : call unit
| get_prototype_tag (atoms : addr) (tol : decimal) : call (string * addr)
| new_MLNEB (cls : string) (start end_ : string) (ase_calc : addr)
    (n_images : Z) (interpolation : string) (restart : bool) : call nat
| MLNEB_run (neb : nat) (fmax : decimal) (trajectory : string) : call unit
| db_Connect : call nat
| db_enter (mgr : nat) : call nat
| update_bulk_entry (dbflow : nat) (images : list addr) : call unit
| db_exit (mgr : nat) (exc : option exn) : call bool
| atoms_to_encode (images : list addr) : call string.

(** The class resolver, the database layer and the encoder are handed
    the store to read; of what they do the model keeps the effect on the
    outside world only. *)
Definition reads_only {X} (c : call X) : bool :=
  match c with
  | str_to_class _ | db_Connect | db_enter _ | update_bulk_entry _ _
  | db_exit _ _ | atoms_to_encode _ => true
  | _ => false
  end.

Definition handler (E : Type) : Type :=
  forall X, call X -> world E -> (exn + X) * world E.

(** ** What a run records *)

Inductive attr := AttrConstraints | AttrPbc | AttrInfo.

Inductive cond :=
| AtomsIsNone
| ParametersIsNone
| CalculatorNameIsNone
| AllPbc
| IsDecafEspresso.

(** A call is recorded with its outcome and the store it left behind. *)
Inductive event :=
| EvCall {X : Type} (c : call X) (o : exn + X) (after : store)
| EvSetattr (image : addr) (f : attr)
| EvBranch (c : cond) (taken : bool)
| EvRaise (e : exn).

(** ** The optional imports (lines 6-10)

    [try: import decaf; import ckutil / except ImportError: pass]: a
    failing [import decaf] leaves the block, so [ckutil] is not bound
    either. *)
Record bindings := Bindings { decaf_bound : bool; ckutil_bound : bool }.

Definition import_optional (decaf_available ckutil_available : bool) : bindings :=
  if decaf_available
  then Bindings true ckutil_available
  else Bindings false false.

(** ** The monad: store, exceptions, and the record of the run *)

Definition M (E A : Type) : Type :=
  world E -> (exn + A) * world E * list event.

#[global] Instance M_ret {E} : MRet (M E) :=
  fun A (a : A) w => (inr a, w, []).

#[global] Instance M_bind {E} : MBind (M E) :=
  fun A B (f : A -> M E B) (m : M E A) w =>
    match m w with
    | (inl e, w1, t1) => (inl e, w1, t1)
    | (inr a, w1, t1) =>
        match f a w1 with
        | (r, w2, t2) => (r, w2, t1 ++ t2)
        end
    end.

Definition outcome {E A} (x : (exn + A) * world E * list event) : exn + A := x.1.1.
Definition final {E A} (x : (exn + A) * world E * list event) : world E := x.1.2.
Definition trace {E A} (x : (exn + A) * world E * list event) : list event := x.2.

Section Flow.
Context {E : Type}.
Variable handle : handler E.
Variable G : bindings.

(** An exception raised by an operation of the module itself. *)
Definition raise {A} (e : exn) : M E A :=
  fun w => (inl e, w, [EvRaise e]).

(** An exception in flight, raised again without a new record. *)
Definition reraise {A} (e : exn) : M E A :=
  fun w => (inl e, w, []).

(** [try m]: run [m] and hand its outcome over as a value. *)
Definition attempt {A} (m : M E A) : M E (exn + A) :=
  fun w => match m w with (r, w1, t1) => (inr r, w1, t1) end.

Definition perform {X} (c : call X) : M E X :=
  fun w =>
    match handle X c w with
    | (o, w1) =>
        let w2 := if reads_only c then World (heap w) (ext w1) else w1 in
        (o, w2, [EvCall c o (heap w2)])
    end.

Definition log (ev : event) : M E unit :=
  fun w => (inr tt, w, [ev]).

Definition branch (c : cond) (b : bool) : M E bool :=
  log (EvBranch c b);; mret b.

(** Reading and updating the store. *)
Definition read_store {A} (f : store -> A) : M E A :=
  fun w => (inr (f (heap w)), w, []).

Definition write_store (f : store -> store) : M E unit :=
  fun w => (inr tt, World (f (heap w)) (ext w), []).

(** *** Attribute access *)

Definition deref (a : addr) : M E Atoms :=
  read_store (fun s => objs s !!! a).

Definition deref_calc (c : addr) : M E Calc :=
  read_store (fun s => calcs s !!! c).

Definition setattr (image : addr) (f : attr) (upd : Atoms -> Atoms) : M E unit :=
  o ← deref image;
  write_store (fun s => set_objs (<[image := upd o]> (objs s)) s);;
  log (EvSetattr image f).

(** *** Dictionaries *)

Definition the_dict (v : val) (e : exn) : M E addr :=
  match v with
  | VDict d => mret d
  | _ => raise e
  end.

Definition dict_items (d : addr) : M E (gmap string val) :=
  read_store (fun s => dicts s !!! d).

Definition dict_getitem (d : addr) (k : string) : M E val :=
  m ← dict_items d;
  match m !! k with
  | Some v => mret v
  | None => raise (KeyError k)
  end.

Definition dict_store (d : addr) (m : gmap string val) : M E unit :=
  write_store (fun s => set_dicts (<[d := m]> (dicts s)) s).

Definition dict_pop (d : addr) (k : string) : M E val :=
  m ← dict_items d;
  match m !! k with
  | Some v => dict_store d (delete k m);; mret v
  | None => raise (KeyError k)
  end.

Definition dict_setitem (d : addr) (k : string) (v : val) : M E unit :=
  m ← dict_items d;
  dict_store d (<[k := v]> m).

(** [d.copy()]: a new dictionary with the same entries (shallow). *)
Definition dict_copy (d : addr) : M E addr :=
  m ← dict_items d;
  n ← read_store (fun s => fresh (dom (dicts s)));
  dict_store n m;;
  mret n.

(** [f(..., k=v, **d)]: the entries of [d] become keyword arguments;
    a key that is also given literally is a [TypeError]. *)
Definition unpack (v : val) (literal : list string) : M E (gmap string val) :=
  d ← the_dict v (TypeError "argument after ** must be a mapping");
  m ← dict_items d;
  if forallb (fun k => bool_decide (m !! k = None)) literal
  then mret m
  else raise (TypeError "got multiple values for keyword argument").

(** *** Names bound by the optional imports *)

Definition global_decaf : M E unit :=
  if decaf_bound G then mret tt else raise (NameError "decaf").

Definition global_ckutil : M E unit :=
  if ckutil_bound G then mret tt else raise (NameError "ckutil").

(** [isinstance(calc, decaf.Espresso)] *)
Definition isinstance_decaf_Espresso (c : addr) : M E bool :=
  global_decaf;;
  o ← deref_calc c;
  branch IsDecafEspresso (bool_decide ("decaf.Espresso" ∈ calc_mro o)).

(** *** Loops *)

Fixpoint for_each {A} (l : list A) (body : A -> M E unit) : M E unit :=
  match l with
  | [] => mret tt
  | x :: l' => body x;; for_each l' body
  end.

(** Lines 48-50, 105-107, 170-172: the body of the patch loop. *)
Definition patch (atoms image : addr) : M E unit :=
  a ← deref atoms;
  setattr image AttrConstraints (set_constraints (constraints a));;
  a ← deref atoms;
  setattr image AttrPbc (set_pbc (pbc a)).

(** ** [get_potential_energy] (lines 13-52) *)
Definition get_potential_energy
    (calculator : string) (in_file out_file : option string) : M E string :=
  let in_file := default "input.traj" in_file in
  let out_file := default "pw.pwo" out_file in
  atoms ← perform (ase_io_read in_file);
  calculator ← perform (str_to_class (VStr calculator));
  a ← deref atoms;
  parameters ← dict_getitem (info a) "calculator_parameters";
  kwargs ← unpack parameters [];
  calc ← perform (new_calculator calculator atoms None kwargs);
  perform (atoms_get_potential_energy atoms);;
  espresso ← isinstance_decaf_Espresso calc;
  images ← (if espresso : bool
            then global_decaf;; perform (io_read_all DecafIO out_file)
            else perform (io_read_all AseIO out_file));
  for_each images (patch atoms);;
  perform (atoms_to_encode images).

(** [with db.Connect() as dbflow: body] (lines 109-110): the manager
    is entered, the body runs, and the manager is left whatever the
    body did; it is told the exception in flight and may swallow it. *)
Definition with_db_Connect (body : nat -> M E unit) : M E unit :=
  mgr ← perform db_Connect;
  dbflow ← perform (db_enter mgr);
  r ← attempt (body dbflow);
  match r with
  | inr _ => perform (db_exit mgr None);; mret tt
  | inl e =>
      suppress ← perform (db_exit mgr (Some e));
      if suppress : bool then mret tt else reraise e
  end.

(** [images[0]] *)
Definition first_image (images : list addr) : M E addr :=
  match images with
  | image :: _ => mret image
  | [] => raise IndexError
  end.

(** ** [catflow_relaxation] (lines 55-112) *)
Definition catflow_relaxation
    (atoms : option addr) (calculator_name : option string)
    (parameters : option addr) : M E string :=
  atoms ← match atoms with
          | None => branch AtomsIsNone true;; perform (ase_io_read "input.traj")
          | Some atoms => branch AtomsIsNone false;; mret atoms
          end;
  parameters ← match parameters with
               | None =>
                   branch ParametersIsNone true;;
                   a ← deref atoms;
                   dict_getitem (info a) "calculator_parameters"
               | Some parameters =>
                   branch ParametersIsNone false;; mret (VDict parameters)
               end;
  calculator_name ← match calculator_name with
                    | None =>
                        branch CalculatorNameIsNone true;;
                        d ← the_dict parameters (AttributeError "pop");
                        dict_pop d "calculator_name"
                    | Some calculator_name =>
                        branch CalculatorNameIsNone false;; mret (VStr calculator_name)
                    end;
  a ← deref atoms;
  data ← dict_copy (info a);
  calculator ← perform (str_to_class calculator_name);
  kwargs ← unpack parameters ["calc_file"];
  calc ← perform (new_calculator calculator atoms (Some "pw0.pwi") kwargs);
  perform (atoms_get_potential_energy atoms);;
  a ← deref atoms;
  bulk ← branch AllPbc (np_all (pbc a));
  '(atoms, calc) ←
    (if bulk : bool
     then
       global_ckutil;;
       c ← deref_calc calc;
       '(tag, atoms) ← perform (get_prototype_tag (calc_atoms c) (Dec 1 (-2)));
       d ← the_dict parameters (TypeError "object does not support item assignment");
       dict_setitem d "calculation" (VStr "scf");;
       kwargs ← unpack parameters ["calc_file"];
       calc ← perform (new_calculator calculator atoms (Some "pw1.pwi") kwargs);
       perform (atoms_get_potential_energy atoms);;
       mret (atoms, calc)
     else mret (atoms, calc));
  espresso ← isinstance_decaf_Espresso calc;
  images ←
    (if espresso : bool
     then
       global_decaf;;
       images ← perform (io_read_all DecafIO "pw0.pwo");
       image ← first_image images;
       setattr image AttrInfo (set_info data);;
       a ← deref atoms;
       bulk ← branch AllPbc (np_all (pbc a));
       mret (if bulk : bool then images ++ [atoms] else images)
     else
       images ← perform (io_read_all AseIO "pw0.pwo");
       image ← first_image images;
       setattr image AttrInfo (set_info data);;
       a ← deref atoms;
       bulk ← branch AllPbc (np_all (pbc a));
       mret (if bulk : bool then images ++ [atoms] else images));
  for_each images (patch atoms);;
  with_db_Connect (fun dbflow => perform (update_bulk_entry dbflow images));;
  perform (atoms_to_encode images).

(** ** [run_mlneb] (lines 115-174) *)
Definition run_mlneb
    (start_file end_file out_file : option string) (n_images : option Z)
    (interpolation : option string) (restart : option bool) : M E string :=
  let start_file := default "input.traj" start_file in
  let end_file := default "final.traj" end_file in
  let out_file := default "ML-NEB.traj" out_file in
  let n_images := default 11%Z n_images in
  let interpolation := default "idpp" interpolation in
  let restart := default false restart in
  atoms ← perform (ase_io_read start_file);
  calculator ← perform (str_to_class (VStr "catlearn.optimize.mlneb.MLNEB"));
  a ← deref atoms;
  neb_catlearn ← perform (new_MLNEB calculator start_file end_file (info a)
                            n_images interpolation restart);
  a ← deref atoms;
  fmax ← dict_getitem (info a) "fmax";
  perform (MLNEB_run neb_catlearn (Dec 5 (-2)) out_file);;
  global_decaf;;
  images ← perform (io_read_all DecafIO out_file);
  for_each images (patch atoms);;
  perform (atoms_to_encode images).

(** A call of one of the three functions of the module. *)
Inductive invocation :=
| call_get_potential_energy
    (calculator : string) (in_file out_file : option string)
| call_catflow_relaxation
    (atoms : option addr) (calculator_name : option string) (parameters : option addr)
| call_run_mlneb
    (start_file end_file out_file : option string) (n_images : option Z)
    (interpolation : option string) (restart : option bool).

Definition invoke (f : invocation) : M E string :=
  match f with
  | call_get_potential_energy calculator in_file out_file =>
      get_potential_energy calculator in_file out_file
  | call_catflow_relaxation atoms calculator_name parameters =>
      catflow_relaxation atoms calculator_name parameters
  | call_run_mlneb start_file end_file out_file n_images interpolation restart =>
      run_mlneb start_file end_file out_file n_images interpolation restart
  end.

End Flow.

(** ** A small concrete world

    Files hold stored structures; the calculator attaches itself to the
    structure and records an energy; the prototype finder returns the
    structure the world says it returns; the database keeps what it is
    sent.  Used to run the three functions on concrete inputs. *)
Module Demo.

Record stored := Stored {
  st_atoms : Atoms;
  st_info : gmap string val;
  st_parameters : option (gmap string val)
}.

Record env := Env {
  files : gmap string (list stored);
  prototype : stored;
  calculator_fails : bool;
  db_rows : list (list Atoms)
}.

Definition set_db_rows (r : list (list Atoms)) (x : env) : env :=
  Env (files x) (prototype x) (calculator_fails x) r.

(** Materialise a stored structure: its dictionaries and the object
    are new. *)
Definition load (s : stored) (h : store) : addr * store :=
  let ds := dicts h in
  let '(ds, i) :=
    match st_parameters s with
    | Some p =>
        let n := fresh (dom ds) in
        let ds := <[n := p]> ds in
        let i := fresh (dom ds) in
        (<[i := <["calculator_parameters" := VDict n]> (st_info s)]> ds, i)
    | None =>
        let i := fresh (dom ds) in
        (<[i := st_info s]> ds, i)
    end in
  let a := fresh (dom (objs h)) in
  (a, Store ds (<[a := set_info i (st_atoms s)]> (objs h)) (calcs h)).

Fixpoint load_all (l : list stored) (h : store) : list addr * store :=
  match l with
  | [] => ([], h)
  | s :: l' =>
      let '(a, h1) := load s h in
      let '(r, h2) := load_all l' h1 in
      (a :: r, h2)
  end.

Definition set_calc_energy (c : option addr) (e : option Z) (a : Atoms) : Atoms :=
  mkAtoms (positions a) (cell a) (_pbc a) (constraints a) (info a) e c.

Definition handle : handler env :=
  fun X c =>
    match c in call X return world env -> (exn + X) * world env with
    | ase_io_read path => fun w =>
        match files (ext w) !! path with
        | Some l =>
            match last l with
            | Some s => let '(a, h) := load s (heap w) in (inr a, World h (ext w))
            | None => (inl IndexError, w)
            end
        | None => (inl (FileNotFoundError path), w)
        end
    | io_read_all _ path => fun w =>
        match files (ext w) !! path with
        | Some l => let '(r, h) := load_all l (heap w) in (inr r, World h (ext w))
        | None => (inl (FileNotFoundError path), w)
        end
    | str_to_class name => fun w =>
        match name with
        | VStr s => (inr s, w)
        | _ => (inl (TypeError "str_to_class"), w)
        end
    | new_calculator cls atoms _ _ => fun w =>
        let h := heap w in
        let a := objs h !!! atoms in
        let c := fresh (dom (calcs h)) in
        (inr c,
         World (Store (dicts h)
                      (<[atoms := set_calc_energy (Some c) (energy a) a]> (objs h))
                      (<[c := mkCalc [cls; "object"] atoms]> (calcs h)))
               (ext w))
    | atoms_get_potential_energy atoms => fun w =>
        let h := heap w in
        let a := objs h !!! atoms in
        if calculator_fails (ext w)
        then (inl (CalculatorError 1), w)
        else (inr tt,
              World (set_objs (<[atoms := set_calc_energy (calc a) (Some 0%Z) a]>
                                 (objs h)) h)
                    (ext w))
    | get_prototype_tag _ _ => fun w =>
        let '(a, h) := load (prototype (ext w)) (heap w) in
        (inr ("A_cF4_225_a", a), World h (ext w))
    | new_MLNEB _ _ _ _ _ _ _ => fun w => (inr 0, w)
    | MLNEB_run _ _ _ => fun w => (inr tt, w)
    | db_Connect => fun w => (inr 0, w)
    | db_enter mgr => fun w => (inr mgr, w)
    | update_bulk_entry _ images => fun w =>
        (inr tt,
         World (heap w)
               (set_db_rows
                  (db_rows (ext w) ++ [omap (fun i => objs (heap w) !! i) images])
                  (ext w)))
    | db_exit _ _ => fun w => (inr false, w)
    | atoms_to_encode images => fun w =>
        (inr (String.concat "," (map (fun _ => "atoms") images)), w)
    end.

Definition bulk : Atoms :=
  mkAtoms [0; 0; 0]%Z [4; 4; 4]%Z [true; true; true] [FixAtoms [0]] 0 None None.

Definition slab : Atoms :=
  mkAtoms [0; 0; 0]%Z [4; 4; 20]%Z [true; true; false] [FixAtoms [0]] 0 None None.

(** The bulk structure in its standard cell, as a prototype finder
    builds it: a new object, without constraints. *)
Definition primitive : Atoms :=
  mkAtoms [0; 0; 0]%Z [2; 2; 2]%Z [true; true; true] [] 0 None None.

Definition frame (z : Z) : stored :=
  Stored (mkAtoms [0; 0; z]%Z [4; 4; 4]%Z [false; false; false] [] 0 (Some z) None)
         ∅ None.

Definition espresso_parameters : gmap string val :=
  <["calculator_name" := VStr "decaf.Espresso"]> (<["ecutwfc" := VInt 500]> ∅).

Definition input (a : Atoms) : stored :=
  Stored a (<["fmax" := VFloat (Dec 1 (-1))]> ∅) (Some espresso_parameters).

Definition disk (a : Atoms) : gmap string (list stored) :=
  <["input.traj" := [input a]]>
    (<["pw.pwo" := [frame 1; frame 2]]>
       (<["pw0.pwo" := [frame 1; frame 2]]>
          (<["ML-NEB.traj" := [frame 1; frame 2; frame 3]]> ∅))).

Definition start (a : Atoms) (proto : Atoms) : world env :=
  World (Store ∅ ∅ ∅) (Env (disk a) (Stored proto ∅ None) false []).

Definition both : bindings := import_optional true true.

(** A world in which the caller holds a structure, at address 0, with
    its parameters in its metadata. *)
Definition holding (a : Atoms) (proto : Atoms) : world env :=
  World (load (input a) (Store ∅ ∅ ∅)).2 (ext (start a proto)).

End Demo.

(** ** Reading the record of a run *)

Definition failure (ev : event) : option exn :=
  match ev with
  | EvCall _ (inl e) _ => Some e
  | EvRaise e => Some e
  | _ => None
  end.

Definition is_db_write (ev : event) : bool :=
  match ev with
  | EvCall (update_bulk_entry _ _) _ _ => true
  | _ => false
  end.

Definition is_db (ev : event) : bool :=
  match ev with
  | EvCall db_Connect _ _ | EvCall (db_enter _) _ _
  | EvCall (update_bulk_entry _ _) _ _ | EvCall (db_exit _ _) _ _ => true
  | _ => false
  end.

(** The trajectory handed to the database or to the encoder, with the
    store as it is at that moment. *)
Definition handed_over (ev : event) : option (list addr * store) :=
  match ev with
  | EvCall (update_bulk_entry _ images) _ s => Some (images, s)
  | EvCall (atoms_to_encode images) _ s => Some (images, s)
  | _ => None
  end.

Definition condition (ev : event) : option cond :=
  match ev with
  | EvBranch c _ => Some c
  | _ => None
  end.

(** ** Symbolic execution

    [wp m Q w]: the run of [m] from [w] ends in an outcome, a world and
    a record that satisfy [Q].  The rules below walk through a
    computation one operation at a time. *)
Section Logic.
Context {E : Type}.
Variable handle : handler E.

Definition wp {A} (m : M E A)
    (Q : exn + A -> world E -> list event -> Prop) (w : world E) : Prop :=
  Q (outcome (m w)) (final (m w)) (trace (m w)).

Lemma wp_run {A} (m : M E A) Q w :
  wp m Q w <-> forall r w' t, m w = (r, w', t) -> Q r w' t.
Proof.
  unfold wp, outcome, final, trace. split.
  - intros H r w' t Hm. rewrite Hm in H. exact H.
  - intros H. destruct (m w) as [[r w'] t]. apply H. reflexivity.
Qed.

Lemma wp_mono {A} (m : M E A) (Q Q' : exn + A -> world E -> list event -> Prop) w :
  wp m Q' w -> (forall r w' t, Q' r w' t -> Q r w' t) -> wp m Q w.
Proof. unfold wp. auto. Qed.

Lemma wp_bind {A B} (m : M E A) (f : A -> M E B) Q w :
  wp m (fun r w1 t1 =>
          match r with
          | inl e => Q (inl e) w1 t1
          | inr a => wp (f a) (fun r' w2 t2 => Q r' w2 (t1 ++ t2)) w1
          end) w ->
  wp (m ≫= f) Q w.
Proof.
  unfold wp, outcome, final, trace, mbind, M_bind.
  destruct (m w) as [[[e | a] w1] t1]; simpl; [auto |].
  destruct (f a w1) as [[r w2] t2]. auto.
Qed.

Lemma wp_ret {A} (a : A) (Q : exn + A -> world E -> list event -> Prop) w :
  Q (inr a) w [] -> wp (mret a) Q w.
Proof. auto. Qed.

Lemma wp_raise {A} e (Q : exn + A -> world E -> list event -> Prop) w :
  Q (inl e) w [EvRaise e] -> wp (raise e) Q w.
Proof. auto. Qed.

Lemma wp_reraise {A} e (Q : exn + A -> world E -> list event -> Prop) w :
  Q (inl e) w [] -> wp (reraise e) Q w.
Proof. auto. Qed.

Lemma wp_log ev (Q : exn + unit -> world E -> list event -> Prop) w :
  Q (inr tt) w [ev] -> wp (log ev) Q w.
Proof. auto. Qed.

Lemma wp_branch c b (Q : exn + bool -> world E -> list event -> Prop) w :
  Q (inr b) w [EvBranch c b] -> wp (branch c b) Q w.
Proof. auto. Qed.

Lemma wp_read_store {A} (f : store -> A) Q (w : world E) :
  Q (inr (f (heap w))) w [] -> wp (read_store f) Q w.
Proof. auto. Qed.

Lemma wp_write_store (f : store -> store) Q (w : world E) :
  Q (inr tt) (World (f (heap w)) (ext w)) [] -> wp (write_store f) Q w.
Proof. auto. Qed.

Lemma wp_attempt {A} (m : M E A) Q w :
  wp m (fun r w1 t1 => Q (inr r) w1 t1) w -> wp (attempt m) Q w.
Proof.
  unfold wp, outcome, final, trace, attempt.
  destruct (m w) as [[r w1] t1]. auto.
Qed.

Lemma wp_perform {X} (c : call X) Q w :
  (forall o w1, handle X c w = (o, w1) ->
     Q o (if reads_only c then World (heap w) (ext w1) else w1)
       [EvCall c o (heap (if reads_only c then World (heap w) (ext w1) else w1))]) ->
  wp (perform handle c) Q w.
Proof.
  unfold wp, outcome, final, trace, perform. intros H.
  destruct (handle X c w) as [o w1]. simpl. apply H. reflexivity.
Qed.

(** A loop, by an invariant on the world and on what the loop has
    recorded so far. *)
Lemma wp_for_each_from {A} (body : A -> M E unit)
    (Inv : world E -> list event -> Prop)
    (Q : exn + unit -> world E -> list event -> Prop) (l : list A) :
  forall t0 w0,
    Inv w0 t0 ->
    (forall x w t, x ∈ l -> Inv w t ->
       wp (body x) (fun r w' t' =>
                      match r with
                      | inr _ => Inv w' (t ++ t')
                      | inl e => Q (inl e) w' (t ++ t')
                      end) w) ->
    (forall w t, Inv w t -> Q (inr tt) w t) ->
    wp (for_each l body) (fun r w' t' => Q r w' (t0 ++ t')) w0.
Proof.
  induction l as [| x l IH]; intros t0 w0 Hinv Hbody Hend.
  - simpl. apply wp_ret. rewrite app_nil_r. apply Hend, Hinv.
  - simpl. apply wp_bind.
    eapply wp_mono; [apply (Hbody x w0 t0); [left | exact Hinv] |].
    intros [e | []] w' t' H; [exact H |].
    eapply wp_mono.
    + apply (IH (t0 ++ t') w' H); [| exact Hend].
      intros y w1 t1 Hy. apply Hbody. right. exact Hy.
    + simpl. intros r w2 t2. rewrite app_assoc. auto.
Qed.

Lemma wp_for_each {A} (l : list A) (body : A -> M E unit)
    (Inv : world E -> list event -> Prop) Q w :
  Inv w [] ->
  (forall x w t, x ∈ l -> Inv w t ->
     wp (body x) (fun r w' t' =>
                    match r with
                    | inr _ => Inv w' (t ++ t')
                    | inl e => Q (inl e) w' (t ++ t')
                    end) w) ->
  (forall w t, Inv w t -> Q (inr tt) w t) ->
  wp (for_each l body) Q w.
Proof.
  intros H0 Hbody Hend.
  apply (wp_for_each_from body Inv Q l [] w H0 Hbody Hend).
Qed.

End Logic.

(** ** Properties of every recorded event

    [always P m]: whatever the world and whatever the outcome, every
    event that [m] records satisfies [P]. *)
Section Always.
Context {E : Type}.
Variable handle : handler E.
Variable G : bindings.
Variable P : event -> Prop.

Definition always {A} (m : M E A) : Prop :=
  forall w, Forall P (trace (m w)).

Lemma always_bind {A B} (m : M E A) (f : A -> M E B) :
  always m -> (forall a, always (f a)) -> always (m ≫= f).
Proof.
  intros Hm Hf w. specialize (Hm w).
  unfold trace, mbind, M_bind in *.
  destruct (m w) as [[[e | a] w1] t1]; simpl in *; [exact Hm |].
  specialize (Hf a w1). destruct (f a w1) as [[r w2] t2]; simpl in *.
  apply Forall_app. split; assumption.
Qed.

Lemma always_ret {A} (a : A) : always (mret a : M E A).
Proof. intros w. constructor. Qed.

Lemma always_reraise {A} e : always (reraise e : M E A).
Proof. intros w. constructor. Qed.

Lemma always_log ev : P ev -> always (log ev : M E unit).
Proof. intros H w. repeat constructor. exact H. Qed.

Lemma always_raise {A} e : P (EvRaise e) -> always (raise e : M E A).
Proof. intros H w. repeat constructor. exact H. Qed.

Lemma always_write_store f : always (write_store f : M E unit).
Proof. intros w. constructor. Qed.

Lemma always_read_store {A} (f : store -> A) : always (read_store f : M E A).
Proof. intros w. constructor. Qed.

Lemma always_perform {X} (c : call X) :
  (forall o s, P (EvCall c o s)) -> always (perform handle c).
Proof.
  intros H w. unfold trace, perform.
  destruct (handle X c w) as [o w1]. simpl. repeat constructor. apply H.
Qed.

Lemma always_attempt {A} (m : M E A) : always m -> always (attempt m).
Proof.
  intros H w. specialize (H w). unfold trace, attempt in *.
  destruct (m w) as [[r w1] t1]. exact H.
Qed.

Lemma always_for_each {A} (l : list A) (body : A -> M E unit) :
  (forall x, always (body x)) -> always (for_each l body).
Proof.
  intros H. induction l as [| x l IH]; simpl.
  - apply always_ret.
  - apply always_bind; [apply H | intros _; exact IH].
Qed.

End Always.

(** Walks through a computation with the rules of [always]; what is
    left are the obligations on the single events. *)
Ltac always_step :=
  lazymatch goal with
  | |- always _ (mbind _ _) => apply always_bind; [| intros ?]
  | |- always _ (mret _) => apply always_ret
  | |- always _ (raise _) => apply always_raise
  | |- always _ (reraise _) => apply always_reraise
  | |- always _ (log _) => apply always_log
  | |- always _ (write_store _) => apply always_write_store
  | |- always _ (read_store _) => apply always_read_store
  | |- always _ (perform _ _) => apply always_perform; intros ? ?
  | |- always _ (attempt _) => apply always_attempt
  | |- always _ (for_each _ _) => apply always_for_each; intros ?
  | |- always _ (match ?x with _ => _ end) => destruct x
  | |- always _ (let _ := _ in _) => cbv zeta
  | |- always _ (branch _ _) => unfold branch
  | |- always _ (deref _) => unfold deref
  | |- always _ (deref_calc _) => unfold deref_calc
  | |- always _ (setattr _ _ _) => unfold setattr
  | |- always _ (the_dict _ _) => unfold the_dict
  | |- always _ (dict_items _) => unfold dict_items
  | |- always _ (dict_getitem _ _) => unfold dict_getitem
  | |- always _ (dict_store _ _) => unfold dict_store
  | |- always _ (dict_pop _ _) => unfold dict_pop
  | |- always _ (dict_setitem _ _ _) => unfold dict_setitem
  | |- always _ (dict_copy _) => unfold dict_copy
  | |- always _ (unpack _ _) => unfold unpack
  | |- always _ (global_decaf _) => unfold global_decaf
  | |- always _ (global_ckutil _) => unfold global_ckutil
  | |- always _ (isinstance_decaf_Espresso _ _) => unfold isinstance_decaf_Espresso
  | |- always _ (first_image _) => unfold first_image
  | |- always _ (patch _ _) => unfold patch
  | |- always _ (with_db_Connect _ _) => unfold with_db_Connect
  end.

(** ** Computations that stop at their first failure

    [orderly m]: [m] leaves the database alone, and if it fails, the
    failure is its last event and its outcome. *)
Definition ok (ev : event) : Prop := failure ev = None /\ is_db ev = false.

Definition stops_at_failure {A} (r : exn + A) (t : list event) : Prop :=
  match r with
  | inr _ => Forall ok t
  | inl e => exists t0 ev,
      t = t0 ++ [ev] /\ Forall ok t0 /\ failure ev = Some e /\ is_db ev = false
  end.

Section Orderly.
Context {E : Type}.
Variable handle : handler E.
Variable G : bindings.

Definition orderly {A} (m : M E A) : Prop :=
  forall w, stops_at_failure (outcome (m w)) (trace (m w)).

Lemma orderly_bind {A B} (m : M E A) (f : A -> M E B) :
  orderly m -> (forall a, orderly (f a)) -> orderly (m ≫= f).
Proof.
  intros Hm Hf w. specialize (Hm w).
  unfold outcome, trace, mbind, M_bind in *.
  destruct (m w) as [[[e | a] w1] t1]; simpl in *; [exact Hm |].
  specialize (Hf a w1). destruct (f a w1) as [[[e | b] w2] t2]; simpl in *.
  - destruct Hf as (t0 & ev & -> & H0 & Hev & Hdb).
    exists (t1 ++ t0), ev. rewrite app_assoc. repeat split; try assumption.
    apply Forall_app. split; assumption.
  - apply Forall_app. split; assumption.
Qed.

Lemma orderly_ret {A} (a : A) : orderly (mret a : M E A).
Proof. intros w. constructor. Qed.

Lemma orderly_raise {A} e : orderly (raise e : M E A).
Proof. intros w. exists [], (EvRaise e). repeat split. constructor. Qed.

Lemma orderly_log ev : ok ev -> orderly (log ev : M E unit).
Proof. intros H w. repeat constructor; apply H. Qed.

Lemma orderly_write_store f : orderly (write_store f : M E unit).
Proof. intros w. constructor. Qed.

Lemma orderly_read_store {A} (f : store -> A) : orderly (read_store f : M E A).
Proof. intros w. constructor. Qed.

Lemma orderly_perform {X} (c : call X) :
  (forall o s, is_db (EvCall c o s) = false) -> orderly (perform handle c).
Proof.
  intros H w. unfold outcome, trace, perform.
  destruct (handle X c w) as [[e | a] w1]; simpl.
  - exists [], (EvCall c (inl e) (heap (if reads_only c then World (heap w) (ext w1) else w1))).
    repeat split; [constructor | apply H].
  - repeat constructor. apply H.
Qed.

Lemma orderly_for_each {A} (l : list A) (body : A -> M E unit) :
  (forall x, orderly (body x)) -> orderly (for_each l body).
Proof.
  intros H. induction l as [| x l IH]; simpl.
  - apply orderly_ret.
  - apply orderly_bind; [apply H | intros _; exact IH].
Qed.

(** A property of outcome and record that an orderly prefix does not
    disturb holds of the whole once it holds of the rest. *)
Definition extends_over_prefix {B} (Phi : exn + B -> list event -> Prop) : Prop :=
  (forall t1 r t2, Forall ok t1 -> Phi r t2 -> Phi r (t1 ++ t2)) /\
  (forall t0 ev e, Forall ok t0 -> failure ev = Some e -> is_db ev = false ->
                   Phi (inl e) (t0 ++ [ev])).

Lemma after_orderly {A B} (Phi : exn + B -> list event -> Prop)
    (m : M E A) (f : A -> M E B) :
  extends_over_prefix Phi ->
  orderly m ->
  (forall a w, Phi (outcome (f a w)) (trace (f a w))) ->
  forall w, Phi (outcome ((m ≫= f) w)) (trace ((m ≫= f) w)).
Proof.
  intros [Hpre Hfail] Hm Hf w. specialize (Hm w).
  unfold outcome, trace, mbind, M_bind in *.
  destruct (m w) as [[[e | a] w1] t1]; simpl in *.
  - destruct Hm as (t0 & ev & -> & H0 & Hev & Hdb). apply Hfail; assumption.
  - specialize (Hf a w1). destruct (f a w1) as [[r w2] t2]; simpl in *.
    apply Hpre; assumption.
Qed.

Lemma orderly_whole {A} (Phi : exn + A -> list event -> Prop) (m : M E A) :
  (forall t, Forall ok t -> forall a, Phi (inr a) t) ->
  (forall t0 ev e, Forall ok t0 -> failure ev = Some e -> is_db ev = false ->
                   Phi (inl e) (t0 ++ [ev])) ->
  orderly m ->
  forall w, Phi (outcome (m w)) (trace (m w)).
Proof.
  intros Hok Hfail Hm w. specialize (Hm w).
  destruct (outcome (m w)) as [e | a]; simpl in Hm.
  - destruct Hm as (t0 & ev & -> & H0 & Hev & Hdb). apply Hfail; assumption.
  - apply Hok. exact Hm.
Qed.

End Orderly.

Ltac orderly_step :=
  lazymatch goal with
  | |- orderly (mbind _ _) => apply orderly_bind; [| intros ?]
  | |- orderly (mret _) => apply orderly_ret
  | |- orderly (raise _) => apply orderly_raise
  | |- orderly (log _) => apply orderly_log; split; reflexivity
  | |- orderly (write_store _) => apply orderly_write_store
  | |- orderly (read_store _) => apply orderly_read_store
  | |- orderly (perform _ _) => apply orderly_perform; intros ? ?; reflexivity
  | |- orderly (for_each _ _) => apply orderly_for_each; intros ?
  | |- orderly (match ?x with _ => _ end) => destruct x
  | |- orderly (let _ := _ in _) => cbv zeta
  | |- orderly (branch _ _) => unfold branch
  | |- orderly (deref _) => unfold deref
  | |- orderly (deref_calc _) => unfold deref_calc
  | |- orderly (setattr _ _ _) => unfold setattr
  | |- orderly (the_dict _ _) => unfold the_dict
  | |- orderly (dict_items _) => unfold dict_items
  | |- orderly (dict_getitem _ _) => unfold dict_getitem
  | |- orderly (dict_store _ _) => unfold dict_store
  | |- orderly (dict_pop _ _) => unfold dict_pop
  | |- orderly (dict_setitem _ _ _) => unfold dict_setitem
  | |- orderly (dict_copy _) => unfold dict_copy
  | |- orderly (unpack _ _) => unfold unpack
  | |- orderly (global_decaf _) => unfold global_decaf
  | |- orderly (global_ckutil _) => unfold global_ckutil
  | |- orderly (isinstance_decaf_Espresso _ _) => unfold isinstance_decaf_Espresso
  | |- orderly (first_image _) => unfold first_image
  | |- orderly (patch _ _) => unfold patch
  end.

(** Symbolic execution, one operation at a time. *)
Ltac wp_unfold :=
  lazymatch goal with
  | |- wp (branch _ _) _ _ => apply wp_branch
  | |- wp (deref _) _ _ => unfold deref
  | |- wp (deref_calc _) _ _ => unfold deref_calc
  | |- wp (setattr _ _ _) _ _ => unfold setattr
  | |- wp (the_dict _ _) _ _ => unfold the_dict
  | |- wp (dict_items _) _ _ => unfold dict_items
  | |- wp (dict_getitem _ _) _ _ => unfold dict_getitem
  | |- wp (dict_store _ _) _ _ => unfold dict_store
  | |- wp (dict_pop _ _) _ _ => unfold dict_pop
  | |- wp (dict_setitem _ _ _) _ _ => unfold dict_setitem
  | |- wp (dict_copy _) _ _ => unfold dict_copy
  | |- wp (unpack _ _) _ _ => unfold unpack
  | |- wp (global_decaf _) _ _ => unfold global_decaf
  | |- wp (global_ckutil _) _ _ => unfold global_ckutil
  | |- wp (isinstance_decaf_Espresso _ _) _ _ => unfold isinstance_decaf_Espresso
  | |- wp (first_image _) _ _ => unfold first_image
  | |- wp (patch _ _) _ _ => unfold patch
  | |- wp (with_db_Connect _ _) _ _ => unfold with_db_Connect
  end.

Ltac wp_step :=
  lazymatch goal with
  | |- wp (mbind _ _) _ _ => apply wp_bind
  | |- wp (mret _) _ _ => apply wp_ret
  | |- wp (raise _) _ _ => apply wp_raise
  | |- wp (reraise _) _ _ => apply wp_reraise
  | |- wp (log _) _ _ => apply wp_log
  | |- wp (write_store _) _ _ => apply wp_write_store
  | |- wp (read_store _) _ _ => apply wp_read_store
  | |- wp (attempt _) _ _ => apply wp_attempt
  | |- wp (perform _ _) _ _ =>
      let o := fresh "o" in
      let w := fresh "w" in
      let H := fresh "Hcall" in
      apply wp_perform; cbn [reads_only]; intros o w H; destruct o
  | |- wp (match ?x with _ => _ end) _ _ => destruct x eqn:?
  | |- wp (let _ := _ in _) _ _ => cbv zeta
  | |- wp _ _ _ => wp_unfold
  | |- match ?x with _ => _ end => destruct x eqn:?
  end; cbv beta iota; cbn [heap ext decaf_bound ckutil_bound import_optional].

(** ** The database (C3) *)

Definition is_encode (ev : event) : bool :=
  match ev with
  | EvCall (atoms_to_encode _) _ _ => true
  | _ => false
  end.







Section Database.
Context {E : Type}.
Variable handle : handler E.
Variable G : bindings.



End Database.

(** ** Failures reach the caller (C2) *)

(** Every failure outside the body of the [with] statement is the
    outcome of the run, and a failing run has recorded the failure that
    is its outcome. *)
Definition propagates {A} (r : exn + A) (t : list event) : Prop :=
  Forall (fun ev => forall e, failure ev = Some e -> is_db_write ev = false -> r = inl e) t /\
  (forall e, r = inl e -> Exists (fun ev => failure ev = Some e) t).

Lemma propagates_extends {A} : extends_over_prefix (@propagates A).
Proof.
  split.
  - intros t1 r t2 H1 [Hall Hex]. split.
    + apply Forall_app. split; [| exact Hall].
      eapply Forall_impl; [exact H1 |]. intros ev [Hno _] e He. congruence.
    + intros e He. apply Exists_app. right. apply Hex, He.
  - intros t0 ev e H0 Hev Hdb. split.
    + apply Forall_app. split.
      * eapply Forall_impl; [exact H0 |]. intros ev' [Hno _] e' He. congruence.
      * repeat constructor. intros e' He' _. congruence.
    + intros e' [= <-]. apply Exists_app. right. left. exact Hev.
Qed.

Ltac find_failure :=
  first [ apply Exists_cons_hd; reflexivity
        | apply Exists_cons_tl; find_failure ].

Section Propagation.
Context {E : Type}.
Variable handle : handler E.
Variable G : bindings.

Lemma persist_and_encode_propagates images w :
  wp (with_db_Connect handle
        (fun dbflow => perform handle (update_bulk_entry dbflow images));;
      perform handle (atoms_to_encode images))
     (fun r _ t => propagates r t) w.
Proof.
  repeat wp_step; cbn [app];
  (split;
   [ repeat (apply List.Forall_cons;
             [ let Hf := fresh in
               let Hw := fresh in
               intros ? Hf Hw; simpl in Hf, Hw; first [discriminate | congruence] |]);
     apply List.Forall_nil
   | intros ? ?; first [discriminate | simplify_eq; find_failure] ]).
Qed.

Lemma invoke_propagates f w :
  propagates (outcome (invoke handle G f w)) (trace (invoke handle G f w)).
Proof.
  destruct f as [calculator in_file out_file
                | atoms calculator_name parameters
                | start_file end_file out_file n_images interpolation restart];
    simpl.
  - revert w. apply orderly_whole.
    + intros t Ht a. apply (proj1 propagates_extends t (inr a) []) in Ht.
      * rewrite app_nil_r in Ht. exact Ht.
      * split; [constructor | discriminate].
    + apply propagates_extends.
    + unfold get_potential_energy. repeat orderly_step.
  - revert w. unfold catflow_relaxation.
    repeat (apply after_orderly;
            [ apply propagates_extends
            | solve [repeat orderly_step]
            | intros ?;
              try lazymatch goal with
                  | |- context [match ?p with (_, _) => _ end] => destruct p
                  end ]).
    intros w. exact (persist_and_encode_propagates _ w).
  - revert w. apply orderly_whole.
    + intros t Ht a. apply (proj1 propagates_extends t (inr a) []) in Ht.
      * rewrite app_nil_r in Ht. exact Ht.
      * split; [constructor | discriminate].
    + apply propagates_extends.
    + unfold run_mlneb. repeat orderly_step.
Qed.

End Propagation.

(** The computation proper: the calculator run or the NEB run,
    completed. *)
Definition computed (ev : event) : bool :=
  match ev with
  | EvCall (atoms_get_potential_energy _) (inr _) _ => true
  | EvCall (MLNEB_run _ _ _) (inr _) _ => true
  | _ => false
  end.

Section WithoutDecaf.
Context {E : Type}.
Variable handle : handler E.

(** [decaf] could not be imported: the [ImportError] was swallowed
    when the module was loaded, and each function fails with a
    [NameError] where it first needs the name, after the computation
    has run. *)
Lemma invoke_without_decaf ckutil_available f w :
  let run := invoke handle (import_optional false ckutil_available) f w in
  existsb computed (trace run) = true ->
  exists name, outcome run = inl (NameError name).
Proof.
  cbv zeta.
  change (wp (invoke handle (import_optional false ckutil_available) f)
            (fun r _ t => existsb computed t = true ->
                          exists name, r = inl (NameError name)) w).
  destruct f; simpl invoke;
    [unfold get_potential_energy | unfold catflow_relaxation | unfold run_mlneb];
    repeat wp_step; cbn [app existsb computed orb];
    first [ discriminate | intros _; eexists; reflexivity ].
Qed.

End WithoutDecaf.

(** ** The conditions a run tests (C5) *)

Definition conditions (t : list event) : list cond := omap condition t.

(** A run that returns has tested exactly [l], in this order; a run
    that fails has tested an initial part of [l]. *)
Definition tests_of {A} (l : list cond) (r : exn + A) (t : list event) : Prop :=
  match r with
  | inr _ => conditions t = l
  | inl _ => conditions t `prefix_of` l
  end.

Section Tests.
Context {E : Type}.
Variable handle : handler E.
Variable G : bindings.

Definition tests {A} (l : list cond) (m : M E A) : Prop :=
  forall w, tests_of l (outcome (m w)) (trace (m w)).

Lemma tests_bind {A B} l1 l2 l (m : M E A) (f : A -> M E B) :
  tests l1 m -> (forall a, tests l2 (f a)) -> l = l1 ++ l2 -> tests l (m ≫= f).
Proof.
  intros Hm Hf -> w. specialize (Hm w).
  unfold tests_of, conditions, outcome, trace, mbind, M_bind in *.
  destruct (m w) as [[[e | a] w1] t1]; simpl in *.
  - apply prefix_app_r. exact Hm.
  - specialize (Hf a w1). unfold tests_of, conditions, outcome, trace in Hf.
    destruct (f a w1) as [[[e | b] w2] t2]; simpl in *.
    + rewrite omap_app, Hm. apply prefix_app. exact Hf.
    + rewrite omap_app, Hm, Hf. reflexivity.
Qed.

Lemma tests_ret {A} (a : A) : tests [] (mret a : M E A).
Proof. intros w. reflexivity. Qed.

Lemma tests_raise {A} l e : tests l (raise e : M E A).
Proof. intros w. apply prefix_nil. Qed.

Lemma tests_read_store {A} (f : store -> A) : tests [] (read_store f : M E A).
Proof. intros w. reflexivity. Qed.

Lemma tests_write_store f : tests [] (write_store f : M E unit).
Proof. intros w. reflexivity. Qed.

Lemma tests_log ev : condition ev = None -> tests [] (log ev : M E unit).
Proof. intros H w. unfold tests_of, conditions. simpl. rewrite H. reflexivity. Qed.

Lemma tests_branch c b : tests [c] (branch c b : M E bool).
Proof. intros w. reflexivity. Qed.

Lemma tests_perform {X} (c : call X) : tests [] (perform handle c).
Proof.
  intros w. unfold tests_of, outcome, trace, perform.
  destruct (handle X c w) as [[e | a] w1]; simpl; [apply prefix_nil | reflexivity].
Qed.

Lemma tests_for_each {A} (l : list A) (body : A -> M E unit) :
  (forall x, tests [] (body x)) -> tests [] (for_each l body).
Proof.
  intros H. induction l as [| x l IH]; simpl.
  - apply tests_ret.
  - eapply tests_bind; [apply H | intros _; exact IH | reflexivity].
Qed.

(** The body of the [with] statement tests nothing, whatever becomes
    of the exception. *)
Lemma tests_with_db_Connect (body : nat -> M E unit) :
  (forall dbflow, always (fun ev => condition ev = None) (body dbflow)) ->
  tests [] (with_db_Connect handle body).
Proof.
  intros Hbody w.
  assert (Hall : Forall (fun ev => condition ev = None)
                   (trace (with_db_Connect handle body w))).
  { revert w.
    change (always (fun ev => condition ev = None) (with_db_Connect handle body)).
    unfold with_db_Connect.
    repeat first [ apply always_attempt; apply Hbody | always_step ]; reflexivity. }
  assert (Hnil : conditions (trace (with_db_Connect handle body w)) = []).
  { unfold conditions. induction Hall as [| ev t Hev _ IH]; simpl; [reflexivity |].
    rewrite Hev. exact IH. }
  unfold tests_of. rewrite Hnil.
  destruct (outcome _); [apply prefix_nil | reflexivity].
Qed.

End Tests.

Ltac tests_step :=
  lazymatch goal with
  | |- tests _ (mbind _ _) => eapply tests_bind; [| intros ? |]
  | |- tests _ (mret _) => apply tests_ret
  | |- tests _ (raise _) => apply tests_raise
  | |- tests _ (log _) => apply tests_log; reflexivity
  | |- tests _ (branch _ _) => apply tests_branch
  | |- tests _ (write_store _) => apply tests_write_store
  | |- tests _ (read_store _) => apply tests_read_store
  | |- tests _ (perform _ _) => apply tests_perform
  | |- tests _ (for_each _ _) => apply tests_for_each; intros ?
  | |- tests _ (with_db_Connect _ _) =>
      apply tests_with_db_Connect; intros ?; repeat always_step; reflexivity
  | |- tests _ (match ?x with _ => _ end) => destruct x
  | |- tests _ (let _ := _ in _) => cbv zeta
  | |- tests _ (deref _) => unfold deref
  | |- tests _ (deref_calc _) => unfold deref_calc
  | |- tests _ (setattr _ _ _) => unfold setattr
  | |- tests _ (the_dict _ _) => unfold the_dict
  | |- tests _ (dict_items _) => unfold dict_items
  | |- tests _ (dict_getitem _ _) => unfold dict_getitem
  | |- tests _ (dict_store _ _) => unfold dict_store
  | |- tests _ (dict_pop _ _) => unfold dict_pop
  | |- tests _ (dict_setitem _ _ _) => unfold dict_setitem
  | |- tests _ (dict_copy _) => unfold dict_copy
  | |- tests _ (unpack _ _) => unfold unpack
  | |- tests _ (global_decaf _) => unfold global_decaf
  | |- tests _ (global_ckutil _) => unfold global_ckutil
  | |- tests _ (isinstance_decaf_Espresso _ _) => unfold isinstance_decaf_Espresso
  | |- tests _ (first_image _) => unfold first_image
  | |- tests _ (patch _ _) => unfold patch
  | |- _ = _ => reflexivity
  end.

(** The conditions each function tests, in order. *)
Definition conditions_tested (f : invocation) : list cond :=
  match f with
  | call_get_potential_energy _ _ _ => [IsDecafEspresso]
  | call_catflow_relaxation _ _ _ =>
      [AtomsIsNone; ParametersIsNone; CalculatorNameIsNone;
       AllPbc; IsDecafEspresso; AllPbc]
  | call_run_mlneb _ _ _ _ _ _ => []
  end.

Section TestsOfTheFunctions.
Context {E : Type}.
Variable handle : handler E.
Variable G : bindings.

Lemma invoke_tests f : tests (conditions_tested f) (invoke handle G f).
Proof.
  destruct f; simpl.
  - unfold get_potential_energy. repeat tests_step.
  - unfold catflow_relaxation. repeat tests_step.
  - unfold run_mlneb. repeat tests_step.
Qed.

End TestsOfTheFunctions.

(** ** Trajectory files (C7) *)





Section Files.
Context {E : Type}.
Variable handle : handler E.
Variable G : bindings.


End Files.

(** ** The threshold of the NEB run (C8) *)

Definition neb_threshold (ev : event) : option decimal :=
  match ev with
  | EvCall (MLNEB_run _ fmax _) _ _ => Some fmax
  | _ => None
  end.

Section Threshold.
Context {E : Type}.
Variable handle : handler E.
Variable G : bindings.

Lemma invoke_neb_threshold f :
  always (fun ev => forall d, neb_threshold ev = Some d -> d = Dec 5 (-2))
    (invoke handle G f).
Proof.
  destruct f; simpl invoke;
    [unfold get_potential_energy | unfold catflow_relaxation | unfold run_mlneb];
    repeat always_step; simpl; congruence.
Qed.

End Threshold.

(** ** The order of the steps (C6) *)

Inductive step :=
| ReadStructure
| InstantiateCalculator
| RunComputation
| ReadTrajectory
| PatchMetadata
| Persist
| Encode.

Definition step_of (ev : event) : option step :=
  match ev with
  | EvCall (ase_io_read _) _ _ => Some ReadStructure
  | EvCall (str_to_class _) _ _ => Some InstantiateCalculator
  | EvCall (new_calculator _ _ _ _) _ _ => Some InstantiateCalculator
  | EvCall (new_MLNEB _ _ _ _ _ _ _) _ _ => Some InstantiateCalculator
  | EvCall (atoms_get_potential_energy _) _ _ => Some RunComputation
  | EvCall (MLNEB_run _ _ _) _ _ => Some RunComputation
  | EvCall (io_read_all _ _) _ _ => Some ReadTrajectory
  | EvSetattr _ _ => Some PatchMetadata
  | EvCall db_Connect _ _ => Some Persist
  | EvCall (db_enter _) _ _ => Some Persist
  | EvCall (update_bulk_entry _ _) _ _ => Some Persist
  | EvCall (db_exit _ _) _ _ => Some Persist
  | EvCall (atoms_to_encode _) _ _ => Some Encode
  | EvCall (get_prototype_tag _ _) _ _ => None
  | EvBranch _ _ => None
  | EvRaise _ => None
  end.

Definition steps (t : list event) : list step := omap step_of t.

Definition rank (s : step) : nat :=
  match s with
  | ReadStructure => 0
  | InstantiateCalculator => 1
  | RunComputation => 2
  | ReadTrajectory => 3
  | PatchMetadata => 4
  | Persist => 5
  | Encode => 6
  end.

(** Steps made of several operations: resolving the class and calling
    it; one assignment per attribute and image; opening the connection,
    entering, writing, leaving. *)
Definition several (s : step) : bool :=
  match s with
  | InstantiateCalculator | PatchMetadata | Persist => true
  | _ => false
  end.

Definition next (s : step) : nat :=
  if several s then rank s else S (rank s).

(** The steps come in the fixed order, none of them out of turn, and
    the single-operation steps once. *)
Fixpoint linear_from (lo : nat) (l : list step) : bool :=
  match l with
  | [] => true
  | s :: l' => (lo <=? rank s) && linear_from (next s) l'
  end.


(** One pass in the fixed order; or one pass that ends right after the
    test [np.all(atoms.pbc)] came out true, and a second pass that
    starts again at the instantiation of the calculator. *)
Definition two_passes_from (lo : nat) (t : list event) : Prop :=
  exists t1 t2,
    t = t1 ++ t2 /\
    linear_from lo (steps t1) = true /\
    linear_from (rank InstantiateCalculator) (steps t2) = true /\
    (t2 = [] \/ last t1 = Some (EvBranch AllPbc true)).


Lemma linear_from_next lo s l :
  linear_from lo (s :: l) = true -> lo <= next s.
Proof.
  simpl. intros H. apply andb_prop in H as [H1 _]. apply Nat.leb_le in H1.
  unfold next. destruct (several s); lia.
Qed.



Section Order.
Context {E : Type}.
Variable handle : handler E.
Variable G : bindings.

Definition ordered {A} (lo hi : nat) (m : M E A) : Prop :=
  forall w rest, linear_from hi (steps rest) = true ->
                 linear_from lo (steps (trace (m w) ++ rest)) = true.











End Order.




Section TwoPasses.
Context {E : Type}.
Variable handle : handler E.
Variable G : bindings.

Definition ordered2 {A} (lo hi : nat) (m : M E A) : Prop :=
  forall w rest, linear_from hi (steps rest) = true ->
                 two_passes_from lo (trace (m w) ++ rest).

Lemma ordered2_of_ordered {A} lo hi (m : M E A) :
  ordered lo hi m -> ordered2 lo hi m.
Proof.
  intros H w rest Hrest. exists (trace (m w) ++ rest), [].
  rewrite app_nil_r. repeat split; [apply H, Hrest | left; reflexivity].
Qed.



End TwoPasses.


Section OrderOfTheFunctions.
Context {E : Type}.
Variable handle : handler E.
Variable G : bindings.




End OrderOfTheFunctions.

(** ** The patch loop (lines 48-50, 105-107, 170-172) *)

(** One turn of the loop, as a function on the objects of the store. *)
Definition patch_image (atoms image : addr) (o : gmap addr Atoms) : gmap addr Atoms :=
  let o1 := <[image := set_constraints (constraints (o !!! atoms)) (o !!! image)]> o in
  <[image := set_pbc (pbc (o1 !!! atoms)) (o1 !!! image)]> o1.

Definition patch_all (atoms : addr) (images : list addr) (o : gmap addr Atoms) :
    gmap addr Atoms :=
  foldl (fun o image => patch_image atoms image o) o images.

Definition patch_events (images : list addr) : list event :=
  flat_map (fun image => [EvSetattr image AttrConstraints; EvSetattr image AttrPbc]) images.

(** The fields the loop leaves alone. *)
Definition same_payload (x y : Atoms) : Prop :=
  positions x = positions y /\ cell x = cell y /\ info x = info y /\
  energy x = energy y /\ calc x = calc y.

Lemma patch_image_insert atoms image (o : gmap addr Atoms) :
  patch_image atoms image o =
  <[image := set_pbc (pbc (o !!! atoms))
               (set_constraints (constraints (o !!! atoms)) (o !!! image))]> o.
Proof.
  unfold patch_image. cbv zeta.
  rewrite lookup_total_insert_eq, insert_insert_eq.
  destruct (decide (image = atoms)) as [-> | Hne].
  - rewrite lookup_total_insert_eq. reflexivity.
  - rewrite lookup_total_insert_ne by exact Hne. reflexivity.
Qed.

Lemma patch_image_source atoms image (o : gmap addr Atoms) :
  constraints (patch_image atoms image o !!! atoms) = constraints (o !!! atoms) /\
  pbc (patch_image atoms image o !!! atoms) = pbc (o !!! atoms).
Proof.
  rewrite patch_image_insert.
  destruct (decide (image = atoms)) as [-> | Hne].
  - rewrite lookup_total_insert_eq. split; reflexivity.
  - rewrite lookup_total_insert_ne by exact Hne. split; reflexivity.
Qed.

Lemma patch_image_payload atoms image (o : gmap addr Atoms) a :
  same_payload (patch_image atoms image o !!! a) (o !!! a).
Proof.
  rewrite patch_image_insert.
  destruct (decide (image = a)) as [-> | Hne].
  - rewrite lookup_total_insert_eq. repeat split.
  - rewrite lookup_total_insert_ne by exact Hne. repeat split.
Qed.


Lemma patch_all_payload atoms images (o : gmap addr Atoms) a :
  same_payload (patch_all atoms images o !!! a) (o !!! a).
Proof.
  revert o. induction images as [| image images IH]; intros o; simpl.
  - repeat split.
  - destruct (IH (patch_image atoms image o)) as (H1 & H2 & H3 & H4 & H5).
    destruct (patch_image_payload atoms image o a) as (H1' & H2' & H3' & H4' & H5').
    unfold patch_all, same_payload in *. repeat split; congruence.
Qed.

(** Every image of the list ends with the constraints and the flags of
    the source, also when the source is itself one of the images. *)
Lemma patch_all_images atoms images (o : gmap addr Atoms) image :
  image ∈ images ->
  constraints (patch_all atoms images o !!! image) = constraints (o !!! atoms) /\
  pbc (patch_all atoms images o !!! image) = pbc (o !!! atoms).
Proof.
  revert o. induction images as [| i images IH]; intros o Hin.
  - inversion Hin.
  - simpl. destruct (decide (image ∈ images)) as [Hlater | Hnot].
    + destruct (IH (patch_image atoms i o) Hlater) as [Hc Hp].
      destruct (patch_image_source atoms i o) as [Hc' Hp'].
      unfold patch_all in *. split; congruence.
    + assert (image = i) as ->.
      { apply elem_of_cons in Hin as [-> | Hin]; [reflexivity | contradiction]. }
      assert (Hkeep : forall l o',
                 i ∉ l ->
                 constraints (patch_all atoms l o' !!! i) = constraints (o' !!! i) /\
                 pbc (patch_all atoms l o' !!! i) = pbc (o' !!! i)).
      { clear. induction l as [| j l IH]; intros o' Hni; simpl; [split; reflexivity |].
        apply not_elem_of_cons in Hni as [Hne Hni].
        destruct (IH (patch_image atoms j o') Hni) as [Hc Hp].
        unfold patch_all in *. rewrite Hc, Hp.
        rewrite patch_image_insert, lookup_total_insert_ne by congruence.
        split; reflexivity. }
      destruct (Hkeep images (patch_image atoms i o) Hnot) as [Hc Hp].
      unfold patch_all in *. rewrite Hc, Hp.
      rewrite patch_image_insert, lookup_total_insert_eq. split; reflexivity.
Qed.

Section PatchLoop.
Context {E : Type}.
Variable handle : handler E.

Lemma for_each_patch atoms images (w : world E) :
  for_each images (patch atoms) w =
  (inr tt,
   World (set_objs (patch_all atoms images (objs (heap w))) (heap w)) (ext w),
   patch_events images).
Proof.
  revert w. induction images as [| image images IH]; intros w.
  - destruct w as [[d o c] x]. reflexivity.
  - cbn [for_each].
    unfold mbind at 1. unfold M_bind.
    assert (Hstep : patch atoms image w =
                    (inr tt,
                     World (set_objs (patch_image atoms image (objs (heap w))) (heap w))
                           (ext w),
                     [EvSetattr image AttrConstraints; EvSetattr image AttrPbc])).
    { destruct w as [[d o c] x]. reflexivity. }
    rewrite Hstep, IH. destruct w as [[d o c] x]. reflexivity.
Qed.

Lemma wp_for_each_patch atoms images Q (w : world E) :
  Q (inr tt)
    (World (set_objs (patch_all atoms images (objs (heap w))) (heap w)) (ext w))
    (patch_events images) ->
  wp (for_each images (patch atoms)) Q w.
Proof. unfold wp, outcome, final, trace. rewrite for_each_patch. auto. Qed.

End PatchLoop.

(** ** What a run lets one observe

    The events that the properties of structures and trajectories speak
    of, in first-order form. *)
Inductive observation :=
| Tested (c : cond) (b : bool)
| Input (atoms : addr)
| Calculator (atoms : addr) (calc_file : option string) (kwargs : gmap string val)
| Computed (atoms : addr)
| Resymmetrized (atoms : addr)
| Trajectory (images : list addr) (s : store)
| HandedOver (images : list addr) (s : store).

Definition observe (ev : event) : option observation :=
  match ev with
  | EvBranch c b => Some (Tested c b)
  | EvCall (ase_io_read _) (inr atoms) _ => Some (Input atoms)
  | EvCall (new_calculator _ atoms calc_file kwargs) (inr _) _ =>
      Some (Calculator atoms calc_file kwargs)
  | EvCall (atoms_get_potential_energy atoms) (inr _) _ => Some (Computed atoms)
  | EvCall (get_prototype_tag _ _) (inr (_, atoms)) _ => Some (Resymmetrized atoms)
  | EvCall (io_read_all _ _) (inr images) s => Some (Trajectory images s)
  | EvCall (update_bulk_entry _ images) _ s => Some (HandedOver images s)
  | EvCall (atoms_to_encode images) _ s => Some (HandedOver images s)
  | _ => None
  end.

Definition observations (t : list event) : list observation := omap observe t.

#[global] Instance decimal_eq_dec : EqDecision decimal.
Proof. solve_decision. Defined.
#[global] Instance val_eq_dec : EqDecision val.
Proof. solve_decision. Defined.
#[global] Instance constraint_eq_dec : EqDecision constraint.
Proof. solve_decision. Defined.
#[global] Instance cond_eq_dec : EqDecision cond.
Proof. solve_decision. Defined.






(** Image [i] carries in [s] the constraints and the flags of [src]. *)
Definition carries (s : store) (src i : addr) : Prop :=
  constraints (objs s !!! i) = constraints (objs s !!! src) /\
  pbc (objs s !!! i) = pbc (objs s !!! src).

(** Every trajectory handed to the database or the encoder carries the
    constraints and flags of [src]. *)
Definition conserved_observation (src : addr) (o : observation) : Prop :=
  match o with
  | HandedOver images s => Forall (carries s src) images
  | _ => True
  end.

Definition conserved (src : addr) (t : list event) : Prop :=
  Forall (conserved_observation src) (observations t).

#[global] Instance carries_dec s src i : Decision (carries s src i).
Proof. unfold carries, pbc. apply _. Defined.

#[global] Instance conserved_observation_dec src o : Decision (conserved_observation src o).
Proof. destruct o; simpl; apply _. Defined.

#[global] Instance conserved_dec src t : Decision (conserved src t).
Proof. unfold conserved. apply _. Defined.

(** ** From the trajectory to the return (lines 92-112)

    The part of [catflow_relaxation] that follows the calculation, as
    a function of what [atoms], [calc] and [data] are bound to. *)
Definition catflow_relaxation_from_line_92 {E} (handle : handler E) (G : bindings)
    (atoms calc data : addr) : M E string :=
  espresso ← isinstance_decaf_Espresso G calc;
  images ←
    (if espresso : bool
     then
       global_decaf G;;
       images ← perform handle (io_read_all DecafIO "pw0.pwo");
       image ← first_image images;
       setattr image AttrInfo (set_info data);;
       a ← deref atoms;
       bulk ← branch AllPbc (np_all (pbc a));
       mret (if bulk : bool then images ++ [atoms] else images)
     else
       images ← perform handle (io_read_all AseIO "pw0.pwo");
       image ← first_image images;
       setattr image AttrInfo (set_info data);;
       a ← deref atoms;
       bulk ← branch AllPbc (np_all (pbc a));
       mret (if bulk : bool then images ++ [atoms] else images));
  for_each images (patch atoms);;
  with_db_Connect handle (fun dbflow => perform handle (update_bulk_entry dbflow images));;
  perform handle (atoms_to_encode images).

(** The trajectory that is persisted and returned: the images read,
    and [atoms] after them if it is periodic in all three directions. *)
Definition final_images (s : store) (atoms : addr) (images : list addr) : list addr :=
  if np_all (pbc (objs s !!! atoms)) then images ++ [atoms] else images.

(** The store when the trajectory is handed over, from the store the
    reader left: [images[0].info = data], then the patch loop. *)
Definition final_store (s : store) (atoms data : addr) (images : list addr) : store :=
  match images with
  | [] => s
  | image :: _ =>
      let o := <[image := set_info data (objs s !!! image)]> (objs s) in
      set_objs (patch_all atoms (final_images s atoms images) o) s
  end.

(** What that part of a run lets one observe. *)
Inductive observed_from_line_92 (atoms data : addr) : list observation -> Prop :=
| stopped_before_type_test :
    observed_from_line_92 atoms data []
| stopped_before_trajectory b :
    observed_from_line_92 atoms data [Tested IsDecafEspresso b]
| stopped_at_empty_trajectory b s :
    observed_from_line_92 atoms data [Tested IsDecafEspresso b; Trajectory [] s]
| reached_database b images s n :
    images <> [] ->
    n <= 2 ->
    observed_from_line_92 atoms data
      ([Tested IsDecafEspresso b; Trajectory images s;
        Tested AllPbc (np_all (pbc (objs s !!! atoms)))] ++
       replicate n (HandedOver (final_images s atoms images)
                               (final_store s atoms data images))).

Lemma pbc_set_info_insert (o : gmap addr Atoms) image data atoms :
  pbc (<[image := set_info data (o !!! image)]> o !!! atoms) = pbc (o !!! atoms).
Proof.
  destruct (decide (image = atoms)) as [-> | Hne].
  - rewrite lookup_total_insert_eq. reflexivity.
  - rewrite lookup_total_insert_ne by exact Hne. reflexivity.
Qed.

Lemma observations_app t1 t2 :
  observations (t1 ++ t2) = observations t1 ++ observations t2.
Proof. apply omap_app. Qed.

Lemma observations_single ev :
  observations [ev] = match observe ev with Some x => [x] | None => [] end.
Proof. unfold observations. simpl. destruct (observe ev); reflexivity. Qed.

Lemma observations_patch_events images : observations (patch_events images) = [].
Proof. induction images as [| image images IH]; [reflexivity | exact IH]. Qed.

(** Brings the observations of a run that has been walked through into
    the form of a list. *)
Ltac observe_trace :=
  rewrite ?observations_app, ?observations_patch_events;
  cbn [observations omap list_omap observe app objs set_objs dicts calcs];
  rewrite ?pbc_set_info_insert.

Section FromLine92.
Context {E : Type}.
Variable handle : handler E.
Variable G : bindings.

Lemma catflow_relaxation_from_line_92_observed atoms calc data w :
  observed_from_line_92 atoms data
    (observations (trace (catflow_relaxation_from_line_92 handle G atoms calc data w))).
Proof.
  change (wp (catflow_relaxation_from_line_92 handle G atoms calc data)
            (fun _ _ t => observed_from_line_92 atoms data (observations t)) w).
  unfold catflow_relaxation_from_line_92.
  repeat first [ apply wp_for_each_patch | wp_step ];
    observe_trace;
    first [ apply stopped_before_type_test
          | apply stopped_before_trajectory
          | apply stopped_at_empty_trajectory
          | refine (reached_database atoms data _ _ _ 0 _ _); [discriminate | lia]
          | refine (reached_database atoms data _ _ _ 1 _ _); [discriminate | lia]
          | refine (reached_database atoms data _ _ _ 2 _ _); [discriminate | lia] ].
Qed.

Lemma catflow_relaxation_from_line_92_wp atoms calc data w :
  wp (catflow_relaxation_from_line_92 handle G atoms calc data)
     (fun _ _ t => observed_from_line_92 atoms data (observations t)) w.
Proof. apply catflow_relaxation_from_line_92_observed. Qed.

End FromLine92.

(** ** Walking through a run, observing

    [observing m seen Q w]: when [m] runs from [w] after what is in
    [seen] (latest first) has been observed, outcome, world and
    observations satisfy [Q]. *)
Definition push (o : option observation) (seen : list observation) : list observation :=
  match o with
  | Some x => x :: seen
  | None => seen
  end.

Section Observing.
Context {E : Type}.
Variable handle : handler E.
Variable G : bindings.

Definition observing {A} (m : M E A) (seen : list observation)
    (Q : exn + A -> world E -> list observation -> Prop) (w : world E) : Prop :=
  Q (outcome (m w)) (final (m w)) (rev (observations (trace (m w))) ++ seen).

Lemma observing_start {A} (m : M E A)
    (S : exn + A -> world E -> list observation -> Prop) w :
  observing m [] (fun r w' seen => S r w' (rev seen)) w ->
  S (outcome (m w)) (final (m w)) (observations (trace (m w))).
Proof. unfold observing. rewrite app_nil_r, rev_involutive. auto. Qed.

Lemma observing_bind {A B} (m : M E A) (f : A -> M E B) seen Q w :
  observing m seen
    (fun r w1 seen1 =>
       match r with
       | inl e => Q (inl e) w1 seen1
       | inr a => observing (f a) seen1 Q w1
       end) w ->
  observing (m ≫= f) seen Q w.
Proof.
  unfold observing, outcome, final, trace, mbind, M_bind.
  destruct (m w) as [[[e | a] w1] t1]; simpl; [auto |].
  destruct (f a w1) as [[r w2] t2]; simpl.
  rewrite observations_app, rev_app_distr, <- app_assoc. auto.
Qed.

Lemma observing_ret {A} (a : A) seen (Q : exn + A -> world E -> _ -> Prop) w :
  Q (inr a) w seen -> observing (mret a) seen Q w.
Proof. auto. Qed.

Lemma observing_raise {A} e seen (Q : exn + A -> world E -> _ -> Prop) w :
  Q (inl e) w seen -> observing (raise e) seen Q w.
Proof. auto. Qed.

Lemma observing_branch c b seen (Q : exn + bool -> world E -> _ -> Prop) w :
  Q (inr b) w (Tested c b :: seen) -> observing (branch c b) seen Q w.
Proof. auto. Qed.

Lemma observing_perform {X} (c : call X) seen Q w :
  (forall o w1, handle X c w = (o, w1) ->
     Q o (if reads_only c then World (heap w) (ext w1) else w1)
       (push (observe
                (EvCall c o (heap (if reads_only c then World (heap w) (ext w1) else w1))))
             seen)) ->
  observing (perform handle c) seen Q w.
Proof.
  unfold observing, outcome, final, trace, perform. intros H.
  destruct (handle X c w) as [o w1]. cbn [fst snd]. specialize (H o w1 eq_refl).
  rewrite observations_single.
  destruct (observe _); exact H.
Qed.

Lemma observing_deref a seen Q (w : world E) :
  Q (inr (objs (heap w) !!! a)) w seen -> observing (deref a) seen Q w.
Proof. auto. Qed.

Lemma observing_deref_calc c seen Q (w : world E) :
  Q (inr (calcs (heap w) !!! c)) w seen -> observing (deref_calc c) seen Q w.
Proof. auto. Qed.

Lemma observing_setattr image f upd seen Q (w : world E) :
  Q (inr tt)
    (World (set_objs (<[image := upd (objs (heap w) !!! image)]> (objs (heap w)))
                     (heap w))
           (ext w))
    seen ->
  observing (setattr image f upd) seen Q w.
Proof. auto. Qed.

Lemma observing_the_dict v e seen Q (w : world E) :
  match v with
  | VDict d => Q (inr d) w seen
  | _ => Q (inl e) w seen
  end ->
  observing (the_dict v e) seen Q w.
Proof. destruct v; auto. Qed.

Lemma observing_dict_getitem d k seen Q (w : world E) :
  match (dicts (heap w) !!! d) !! k with
  | Some v => Q (inr v) w seen
  | None => Q (inl (KeyError k)) w seen
  end ->
  observing (dict_getitem d k) seen Q w.
Proof.
  unfold observing, outcome, final, trace, dict_getitem, dict_items, read_store,
    mbind, M_bind. simpl.
  destruct ((dicts (heap w) !!! d) !! k); auto.
Qed.

Lemma observing_dict_pop d k seen Q (w : world E) :
  match (dicts (heap w) !!! d) !! k with
  | Some v =>
      Q (inr v)
        (World (set_dicts (<[d := delete k (dicts (heap w) !!! d)]> (dicts (heap w)))
                          (heap w))
               (ext w))
        seen
  | None => Q (inl (KeyError k)) w seen
  end ->
  observing (dict_pop d k) seen Q w.
Proof.
  unfold observing, outcome, final, trace, dict_pop, dict_items, read_store,
    mbind, M_bind. simpl.
  destruct ((dicts (heap w) !!! d) !! k); auto.
Qed.

Lemma observing_dict_setitem d k v seen Q (w : world E) :
  Q (inr tt)
    (World (set_dicts (<[d := <[k := v]> (dicts (heap w) !!! d)]> (dicts (heap w)))
                      (heap w))
           (ext w))
    seen ->
  observing (dict_setitem d k v) seen Q w.
Proof. auto. Qed.

Lemma observing_dict_copy d seen Q (w : world E) :
  Q (inr (fresh (dom (dicts (heap w)))))
    (World (set_dicts (<[fresh (dom (dicts (heap w))) := dicts (heap w) !!! d]>
                         (dicts (heap w)))
                      (heap w))
           (ext w))
    seen ->
  observing (dict_copy d) seen Q w.
Proof. auto. Qed.

Lemma observing_unpack v literal seen Q (w : world E) :
  match v with
  | VDict d =>
      if forallb (fun k => bool_decide ((dicts (heap w) !!! d) !! k = None)) literal
      then Q (inr (dicts (heap w) !!! d)) w seen
      else Q (inl (TypeError "got multiple values for keyword argument")) w seen
  | _ => Q (inl (TypeError "argument after ** must be a mapping")) w seen
  end ->
  observing (unpack v literal) seen Q w.
Proof.
  unfold observing, outcome, final, trace, unpack, the_dict, dict_items, read_store,
    mbind, M_bind.
  destruct v; simpl; auto.
  destruct (forallb _ literal); auto.
Qed.

Lemma observing_global_decaf seen Q (w : world E) :
  (if decaf_bound G
   then Q (inr tt) w seen
   else Q (inl (NameError "decaf")) w seen) ->
  observing (global_decaf G) seen Q w.
Proof. unfold global_decaf. destruct (decaf_bound G); auto. Qed.

Lemma observing_global_ckutil seen Q (w : world E) :
  (if ckutil_bound G
   then Q (inr tt) w seen
   else Q (inl (NameError "ckutil")) w seen) ->
  observing (global_ckutil G) seen Q w.
Proof. unfold global_ckutil. destruct (ckutil_bound G); auto. Qed.

Lemma observing_isinstance c seen Q (w : world E) :
  (if decaf_bound G
   then Q (inr (bool_decide ("decaf.Espresso" ∈ calc_mro (calcs (heap w) !!! c)))) w
          (Tested IsDecafEspresso
             (bool_decide ("decaf.Espresso" ∈ calc_mro (calcs (heap w) !!! c))) :: seen)
   else Q (inl (NameError "decaf")) w seen) ->
  observing (isinstance_decaf_Espresso G c) seen Q w.
Proof.
  unfold observing, outcome, final, trace, isinstance_decaf_Espresso, global_decaf,
    mbind, M_bind.
  destruct (decaf_bound G); auto.
Qed.

Lemma observing_first_image images seen Q (w : world E) :
  match images with
  | image :: _ => Q (inr image) w seen
  | [] => Q (inl IndexError) w seen
  end ->
  observing (first_image images) seen Q w.
Proof. destruct images; auto. Qed.

Lemma observing_for_each_patch atoms images seen Q (w : world E) :
  Q (inr tt)
    (World (set_objs (patch_all atoms images (objs (heap w))) (heap w)) (ext w))
    seen ->
  observing (for_each images (patch atoms)) seen Q w.
Proof.
  unfold observing, outcome, final, trace. rewrite for_each_patch. simpl.
  rewrite observations_patch_events. auto.
Qed.

Lemma observing_from_line_92 atoms calc data seen Q (w : world E) :
  (forall r w' obs, observed_from_line_92 atoms data obs -> Q r w' (rev obs ++ seen)) ->
  observing (catflow_relaxation_from_line_92 handle G atoms calc data) seen Q w.
Proof.
  intros H. apply H. apply catflow_relaxation_from_line_92_observed.
Qed.

End Observing.

(** At line 92 of [catflow_relaxation] the rest of the run is known by
    what it lets one observe. *)
Ltac at_line_92 :=
  lazymatch goal with
  | |- observing (mbind _ (isinstance_decaf_Espresso _ _)) _ _ _ =>
      let Hshape := fresh "Hshape" in
      refine (observing_from_line_92 _ _ _ _ _ _ _ _ _); intros ? ? ? Hshape
  end.

Ltac observing_step :=
  lazymatch goal with
  | |- observing (mbind _ _) _ _ _ => apply observing_bind
  | |- observing (mret _) _ _ _ => apply observing_ret
  | |- observing (raise _) _ _ _ => apply observing_raise
  | |- observing (branch _ _) _ _ _ => apply observing_branch
  | |- observing (perform _ _) _ _ _ =>
      let o := fresh "o" in
      let w := fresh "w" in
      apply observing_perform; cbn [reads_only]; intros o w _; destruct o
  | |- observing (deref _) _ _ _ => apply observing_deref
  | |- observing (deref_calc _) _ _ _ => apply observing_deref_calc
  | |- observing (setattr _ _ _) _ _ _ => apply observing_setattr
  | |- observing (the_dict _ _) _ _ _ => apply observing_the_dict
  | |- observing (dict_getitem _ _) _ _ _ => apply observing_dict_getitem
  | |- observing (dict_pop _ _) _ _ _ => apply observing_dict_pop
  | |- observing (dict_setitem _ _ _) _ _ _ => apply observing_dict_setitem
  | |- observing (dict_copy _) _ _ _ => apply observing_dict_copy
  | |- observing (unpack _ _) _ _ _ => apply observing_unpack
  | |- observing (global_decaf _) _ _ _ => apply observing_global_decaf
  | |- observing (global_ckutil _) _ _ _ => apply observing_global_ckutil
  | |- observing (isinstance_decaf_Espresso _ _) _ _ _ => apply observing_isinstance
  | |- observing (first_image _) _ _ _ => apply observing_first_image
  | |- observing (for_each _ (patch _)) _ _ _ => apply observing_for_each_patch
  | |- observing (match ?x with _ => _ end) _ _ _ => destruct x eqn:?
  | |- observing (let _ := _ in _) _ _ _ => cbv zeta
  | |- match ?x with _ => _ end => destruct x eqn:?
  end;
  cbv beta iota; cbn [push observe heap ext].

(** ** Constraints and flags on what is handed over (C1) *)






Section Conservation.
Context {E : Type}.
Variable handle : handler E.
Variable G : bindings.


End Conservation.

(** ** What the module leaves alone (C4) *)

Definition payload_kept (s_r s_h : store) (i : addr) : Prop :=
  positions (objs s_h !!! i) = positions (objs s_r !!! i) /\
  cell (objs s_h !!! i) = cell (objs s_r !!! i) /\
  energy (objs s_h !!! i) = energy (objs s_r !!! i) /\
  calc (objs s_h !!! i) = calc (objs s_r !!! i).

(** The structure still refers to the mapping the reader gave it, and
    that mapping has the entries it had. *)
Definition mapping_kept (s_r s_h : store) (i : addr) : Prop :=
  info (objs s_h !!! i) = info (objs s_r !!! i) /\
  dicts s_h !!! info (objs s_r !!! i) = dicts s_r !!! info (objs s_r !!! i).

Definition untouched (except : list addr) (s_r : store) (o : observation) : Prop :=
  match o with
  | HandedOver out s_h =>
      Forall (fun i => payload_kept s_r s_h i /\ (i ∈ except \/ mapping_kept s_r s_h i)) out
  | _ => True
  end.

Definition untouched_since (except : list addr -> list addr) (obs : list observation)
    (o : observation) : Prop :=
  match o with
  | Trajectory images s_r => Forall (untouched (except images) s_r) obs
  | _ => True
  end.

(** Between the store the trajectory reader returned and the store in
    which the trajectory is handed over, the structures handed over
    keep their payload, and also their metadata mapping unless they are
    among [except images]. *)
Definition frame_kept_in (except : list addr -> list addr) (obs : list observation) : Prop :=
  Forall (untouched_since except obs) obs.

Definition frame_kept (except : list addr -> list addr) (t : list event) : Prop :=
  frame_kept_in except (observations t).


#[global] Instance payload_kept_dec s_r s_h i : Decision (payload_kept s_r s_h i).
Proof. unfold payload_kept. apply _. Defined.
#[global] Instance mapping_kept_dec s_r s_h i : Decision (mapping_kept s_r s_h i).
Proof. unfold mapping_kept. apply _. Defined.
#[global] Instance untouched_dec except s_r o : Decision (untouched except s_r o).
Proof. destruct o; simpl; apply _. Defined.
#[global] Instance untouched_since_dec except obs o : Decision (untouched_since except obs o).
Proof. destruct o; simpl; apply _. Defined.
#[global] Instance frame_kept_dec except t : Decision (frame_kept except t).
Proof. unfold frame_kept, frame_kept_in. apply _. Defined.

(** Neither a trajectory read nor a trajectory handed over. *)
Definition plain (o : observation) : Prop :=
  match o with
  | Trajectory _ _ | HandedOver _ _ => False
  | _ => True
  end.










Section Frame.
Context {E : Type}.
Variable handle : handler E.
Variable G : bindings.


End Frame.

(** ** The second calculation of the periodic case (C10) *)

Definition pbc_tests (obs : list observation) : list bool :=
  omap (fun o => match o with Tested AllPbc b => Some b | _ => None end) obs.

(** The structure the first calculation ran on was found periodic in
    all three directions (line 85). *)
Definition periodic_input (obs : list observation) : Prop :=
  head (pbc_tests obs) = Some true.

Definition calculators (obs : list observation)
    : list (addr * option string * gmap string val) :=
  omap (fun o => match o with Calculator a f k => Some (a, f, k) | _ => None end) obs.

Definition computations (obs : list observation) : list addr :=
  omap (fun o => match o with Computed a => Some a | _ => None end) obs.

Definition resymmetrizations (obs : list observation) : list addr :=
  omap (fun o => match o with Resymmetrized a => Some a | _ => None end) obs.

Definition longer_by_one (images : list addr) (o : observation) : Prop :=
  match o with
  | HandedOver out _ => length out = S (length images)
  | _ => True
  end.

(** Every trajectory handed over is one image longer than the one read. *)
Definition one_image_longer (obs : list observation) : Prop :=
  Forall (fun o => match o with
                   | Trajectory images _ => Forall (longer_by_one images) obs
                   | _ => True
                   end) obs.

#[global] Instance periodic_input_dec obs : Decision (periodic_input obs).
Proof. unfold periodic_input. apply _. Defined.
#[global] Instance longer_by_one_dec images o : Decision (longer_by_one images o).
Proof. destruct o; simpl; apply _. Defined.
#[global] Instance one_image_longer_dec obs : Decision (one_image_longer obs).
Proof.
  unfold one_image_longer. apply Forall_dec. intros o. destruct o; apply _.
Defined.


Lemma plain_not_read prefix images s :
  Forall plain prefix -> ~ In (Trajectory images s) prefix.
Proof.
  intros H Hin. rewrite Forall_forall in H.
  apply (H (Trajectory images s)). apply list_elem_of_In, Hin.
Qed.

Lemma plain_not_handed_over prefix out s :
  Forall plain prefix -> ~ In (HandedOver out s) prefix.
Proof.
  intros H Hin. rewrite Forall_forall in H.
  apply (H (HandedOver out s)). apply list_elem_of_In, Hin.
Qed.

Lemma observed_from_line_92_quiet atoms data obs :
  observed_from_line_92 atoms data obs ->
  calculators obs = [] /\ computations obs = [] /\ resymmetrizations obs = [].
Proof.
  destruct 1 as [| b | b s | b images s n Hne Hn]; repeat split; try reflexivity;
    cbn [app]; unfold calculators, computations, resymmetrizations;
    cbn [omap list_omap]; induction n as [| n IH]; try reflexivity;
    cbn [replicate omap list_omap]; apply IH; lia.
Qed.


Ltac plain_list := repeat (apply List.Forall_cons; [exact I |]); apply List.Forall_nil.



Definition inert (o : observation) : Prop :=
  match o with
  | Tested _ _ | Input _ => True
  | _ => False
  end.




Section SecondCalculation.
Context {E : Type}.
Variable handle : handler E.
Variable G : bindings.

End SecondCalculation.

(** ** The parameters mapping after the call (C9) *)

(** Lines 76-112 of [catflow_relaxation], as a function of what
    [atoms], [parameters] and [calculator_name] are bound to there. *)
Definition catflow_relaxation_from_line_76 {E} (handle : handler E) (G : bindings)
    (atoms : addr) (parameters calculator_name : val) : M E string :=
  a ← deref atoms;
  data ← dict_copy (info a);
  calculator ← perform handle (str_to_class calculator_name);
  kwargs ← unpack parameters ["calc_file"];
  calc ← perform handle (new_calculator calculator atoms (Some "pw0.pwi") kwargs);
  perform handle (atoms_get_potential_energy atoms);;
  a ← deref atoms;
  bulk ← branch AllPbc (np_all (pbc a));
  '(atoms, calc) ←
    (if bulk : bool
     then
       global_ckutil G;;
       c ← deref_calc calc;
       '(tag, atoms) ← perform handle (get_prototype_tag (calc_atoms c) (Dec 1 (-2)));
       d ← the_dict parameters (TypeError "object does not support item assignment");
       dict_setitem d "calculation" (VStr "scf");;
       kwargs ← unpack parameters ["calc_file"];
       calc ← perform handle (new_calculator calculator atoms (Some "pw1.pwi") kwargs);
       perform handle (atoms_get_potential_energy atoms);;
       mret (atoms, calc)
     else mret (atoms, calc));
  catflow_relaxation_from_line_92 handle G atoms calc data.

(** Collaborators leave the dictionaries that exist as they are. *)
Definition dict_frame {E} (handle : handler E) : Prop :=
  forall X (c : call X) w d m,
    dicts (heap w) !! d = Some m -> dicts (heap (handle X c w).2) !! d = Some m.

(** Dictionary [p], which was [m], has lost its ['calculator_name']; it
    may have gained ['calculation'] (line 88). *)
Definition popped (p : addr) (m : gmap string val) (s : store) : Prop :=
  dicts s !! p = Some (delete "calculator_name" m) \/
  dicts s !! p = Some (<["calculation" := VStr "scf"]> (delete "calculator_name" m)).

Section Keeps.
Context {E : Type}.
Variable handle : handler E.
Variable G : bindings.
Variable I : store -> Prop.
Hypothesis I_objs : forall s o, I s -> I (set_objs o s).
Hypothesis I_handle : forall X (c : call X) w, I (heap w) -> I (heap (handle X c w).2).
Hypothesis I_copy :
  forall s m, I s -> I (set_dicts (<[fresh (dom (dicts s)) := m]> (dicts s)) s).
Hypothesis I_calculation :
  forall s d,
    I s -> I (set_dicts (<[d := <["calculation" := VStr "scf"]> (dicts s !!! d)]> (dicts s)) s).

(** [m] leaves [I] true of the store if it finds it true. *)
Definition keeps {A} (m : M E A) : Prop :=
  forall w, I (heap w) -> I (heap (final (m w))).

Lemma keeps_bind {A B} (m : M E A) (f : A -> M E B) :
  keeps m -> (forall a, keeps (f a)) -> keeps (m ≫= f).
Proof.
  intros Hm Hf w Hw. specialize (Hm w Hw). revert Hm.
  unfold final, mbind, M_bind. destruct (m w) as [[[e | a] w1] t1]; simpl; [auto |].
  intros H1. specialize (Hf a w1 H1). revert Hf. unfold final.
  destruct (f a w1) as [[r w2] t2]; auto.
Qed.

Lemma keeps_unchanged {A} (m : M E A) :
  (forall w, final (m w) = w) -> keeps m.
Proof. intros H w Hw. rewrite H. exact Hw. Qed.

Lemma keeps_ret {A} (a : A) : keeps (mret a).
Proof. apply keeps_unchanged. reflexivity. Qed.

Lemma keeps_raise {A} e : keeps (raise (A := A) e).
Proof. apply keeps_unchanged. reflexivity. Qed.

Lemma keeps_reraise {A} e : keeps (reraise (A := A) e).
Proof. apply keeps_unchanged. reflexivity. Qed.

Lemma keeps_branch c b : keeps (branch c b).
Proof. apply keeps_unchanged. reflexivity. Qed.

Lemma keeps_read_store {A} (f : store -> A) : keeps (read_store f).
Proof. apply keeps_unchanged. reflexivity. Qed.

Lemma keeps_the_dict v e : keeps (the_dict v e).
Proof. apply keeps_unchanged. destruct v; reflexivity. Qed.

Lemma keeps_first_image images : keeps (first_image images).
Proof. apply keeps_unchanged. destruct images; reflexivity. Qed.

Lemma keeps_global_decaf : keeps (global_decaf G).
Proof. apply keeps_unchanged. unfold global_decaf. destruct (decaf_bound G); reflexivity. Qed.

Lemma keeps_global_ckutil : keeps (global_ckutil G).
Proof. apply keeps_unchanged. unfold global_ckutil. destruct (ckutil_bound G); reflexivity. Qed.

Lemma keeps_perform {X} (c : call X) : keeps (perform handle c).
Proof.
  intros w Hw. unfold perform, final. specialize (I_handle X c w Hw).
  destruct (handle X c w) as [o w1]. simpl in *. destruct (reads_only c); assumption.
Qed.

Lemma keeps_attempt {A} (m : M E A) : keeps m -> keeps (attempt m).
Proof.
  intros Hm w Hw. specialize (Hm w Hw). revert Hm. unfold attempt, final.
  destruct (m w) as [[r w1] t1]. auto.
Qed.

Lemma keeps_setattr image f upd : keeps (setattr image f upd).
Proof. intros w Hw. apply (I_objs (heap w)). exact Hw. Qed.

Lemma keeps_dict_copy d : keeps (dict_copy d).
Proof. intros w Hw. apply (I_copy (heap w)). exact Hw. Qed.

Lemma keeps_dict_setitem_calculation d :
  keeps (dict_setitem d "calculation" (VStr "scf")).
Proof. intros w Hw. apply (I_calculation (heap w)). exact Hw. Qed.

Lemma keeps_unpack v literal : keeps (unpack v literal).
Proof.
  apply keeps_unchanged. intros w. unfold unpack, the_dict, dict_items, read_store,
    final, mbind, M_bind.
  destruct v; simpl; try reflexivity. destruct (forallb _ literal); reflexivity.
Qed.

Lemma keeps_for_each {A} (l : list A) body :
  (forall x, keeps (body x)) -> keeps (for_each l body).
Proof.
  intros Hb. induction l as [| x l IH]; simpl.
  - apply keeps_ret.
  - apply keeps_bind; [apply Hb | intros _; exact IH].
Qed.

End Keeps.

Ltac keeps_step :=
  lazymatch goal with
  | |- keeps _ (mbind _ _) => apply keeps_bind; [| intros ?]
  | |- keeps _ (mret _) => apply keeps_ret
  | |- keeps _ (raise _) => apply keeps_raise
  | |- keeps _ (reraise _) => apply keeps_reraise
  | |- keeps _ (branch _ _) => apply keeps_branch
  | |- keeps _ (perform _ _) => apply keeps_perform; assumption
  | |- keeps _ (attempt _) => apply keeps_attempt
  | |- keeps _ (deref _) => apply keeps_read_store
  | |- keeps _ (deref_calc _) => apply keeps_read_store
  | |- keeps _ (setattr _ _ _) => apply keeps_setattr; assumption
  | |- keeps _ (the_dict _ _) => apply keeps_the_dict
  | |- keeps _ (dict_copy _) => apply keeps_dict_copy; assumption
  | |- keeps _ (dict_setitem _ _ _) => apply keeps_dict_setitem_calculation; assumption
  | |- keeps _ (unpack _ _) => apply keeps_unpack
  | |- keeps _ (global_decaf _) => apply keeps_global_decaf
  | |- keeps _ (global_ckutil _) => apply keeps_global_ckutil
  | |- keeps _ (first_image _) => apply keeps_first_image
  | |- keeps _ (for_each _ _) => apply keeps_for_each; intros ?
  | |- keeps _ (match ?x with _ => _ end) => destruct x
  | |- keeps _ (let _ := _ in _) => cbv zeta
  end.

Section FromLine76.
Context {E : Type}.
Variable handle : handler E.
Variable G : bindings.
Variable I : store -> Prop.
Hypothesis I_objs : forall s o, I s -> I (set_objs o s).
Hypothesis I_handle : forall X (c : call X) w, I (heap w) -> I (heap (handle X c w).2).
Hypothesis I_copy :
  forall s m, I s -> I (set_dicts (<[fresh (dom (dicts s)) := m]> (dicts s)) s).
Hypothesis I_calculation :
  forall s d,
    I s -> I (set_dicts (<[d := <["calculation" := VStr "scf"]> (dicts s !!! d)]> (dicts s)) s).

Lemma catflow_relaxation_from_line_76_keeps atoms parameters calculator_name :
  keeps I (catflow_relaxation_from_line_76 handle G atoms parameters calculator_name).
Proof.
  unfold catflow_relaxation_from_line_76, catflow_relaxation_from_line_92,
    isinstance_decaf_Espresso, with_db_Connect, patch.
  repeat keeps_step.
Qed.

Lemma observing_from_line_76 atoms parameters calculator_name seen Q (w : world E) :
  I (heap w) ->
  (forall r w' obs, I (heap w') -> Q r w' (obs ++ seen)) ->
  observing (catflow_relaxation_from_line_76 handle G atoms parameters calculator_name)
    seen Q w.
Proof.
  intros Hw HQ. apply HQ. apply catflow_relaxation_from_line_76_keeps, Hw.
Qed.

End FromLine76.

Lemma popped_objs p m s o : popped p m s -> popped p m (set_objs o s).
Proof. auto. Qed.

Lemma popped_copy p m s m' :
  popped p m s -> popped p m (set_dicts (<[fresh (dom (dicts s)) := m']> (dicts s)) s).
Proof.
  unfold popped. cbn [dicts set_dicts]. intros H.
  assert (Hne : fresh (dom (dicts s)) <> p).
  { intros <-. apply (is_fresh (dom (dicts s))). destruct H as [H | H];
      apply (elem_of_dom_2 _ _ _ H). }
  rewrite lookup_insert_ne by exact Hne. exact H.
Qed.

Lemma popped_calculation p m s d :
  popped p m s ->
  popped p m
    (set_dicts (<[d := <["calculation" := VStr "scf"]> (dicts s !!! d)]> (dicts s)) s).
Proof.
  unfold popped. cbn [dicts set_dicts]. intros H. destruct (decide (d = p)) as [-> | Hne].
  - right. rewrite lookup_insert_eq. f_equal.
    destruct H as [H | H]; rewrite (lookup_total_correct _ _ _ H); [reflexivity |].
    apply insert_insert_eq.
  - rewrite lookup_insert_ne by exact Hne. exact H.
Qed.

Lemma popped_handle {E} (handle : handler E) p m :
  dict_frame handle ->
  forall X (c : call X) w, popped p m (heap w) -> popped p m (heap (handle X c w).2).
Proof. intros Hf X c w [H | H]; [left | right]; apply Hf, H. Qed.

(** The mapping [parameters] is bound to at line 74, as the caller
    knows it. *)
Definition popped_from (atoms parameters : option addr) (s : store) : option addr :=
  match parameters, atoms with
  | Some p, _ => Some p
  | None, Some a =>
      match (dicts s !!! info (objs s !!! a)) !! "calculator_parameters" with
      | Some (VDict p) => Some p
      | _ => None
      end
  | None, None => None
  end.

Ltac at_line_76 p m :=
  lazymatch goal with
  | |- observing (mbind (fun a => mbind _ (dict_copy _)) (deref _)) _ _ _ =>
      refine (observing_from_line_76 _ _ (popped p m) (popped_objs p m) _
                (popped_copy p m) (popped_calculation p m) _ _ _ _ _ _ _ _)
  end.

Ltac pop_at Hp Hk :=
  lazymatch goal with
  | |- observing (dict_pop _ _) _ _ _ =>
      apply observing_dict_pop; rewrite (lookup_total_correct _ _ _ Hp), Hk;
      cbv beta iota; cbn [heap ext]
  end.

Ltac lost_its_key :=
  first [ apply popped_handle; assumption
        | left; cbn [dicts set_dicts heap]; apply lookup_insert_eq
        | intros ? ? ? Hpopped _; exact Hpopped ].

Section Pop.
Context {E : Type}.
Variable handle : handler E.
Variable G : bindings.
Hypothesis frame : dict_frame handle.

Lemma catflow_relaxation_pops atoms parameters w p m v :
  popped_from atoms parameters (heap w) = Some p ->
  dicts (heap w) !! p = Some m ->
  m !! "calculator_name" = Some v ->
  In (Tested CalculatorNameIsNone true)
     (observations (trace (catflow_relaxation handle G atoms None parameters w))) ->
  popped p m (heap (final (catflow_relaxation handle G atoms None parameters w))).
Proof.
  intros Hfrom Hp Hk.
  apply (observing_start (catflow_relaxation handle G atoms None parameters)
           (fun _ w' obs => In (Tested CalculatorNameIsNone true) obs ->
                            popped p m (heap w'))).
  unfold catflow_relaxation.
  destruct parameters as [p' |]; [injection Hfrom as -> | destruct atoms as [a |]].
  - destruct atoms as [a |].
    + repeat first [pop_at Hp Hk | at_line_76 p m | observing_step]; lost_its_key.
    + apply observing_bind, observing_bind. observing_step.
      apply observing_perform. intros o w1 Hcall.
      pose proof (frame _ (ase_io_read "input.traj") w p m Hp) as Hp1.
      rewrite Hcall in Hp1. cbn [snd reads_only] in *. destruct o.
      { cbn [push observe rev app In]. intuition discriminate. }
      cbv beta iota.
      repeat first [pop_at Hp1 Hk | at_line_76 p m | observing_step]; lost_its_key.
  - cbn [popped_from] in Hfrom.
    destruct ((dicts (heap w) !!! info (objs (heap w) !!! a)) !! "calculator_parameters")
      as [[| | | | | d] |] eqn:Hinfo; try discriminate Hfrom.
    injection Hfrom as ->.
    repeat first [ pop_at Hp Hk | at_line_76 p m
                 | apply observing_dict_getitem; rewrite Hinfo | observing_step ].
  all: lost_its_key.
  - discriminate Hfrom.
Qed.
End Pop.

(** The concrete world satisfies the frame condition: what it loads
    goes to new addresses. *)
Lemma Demo_load_frame st h d m :
  dicts h !! d = Some m -> dicts (Demo.load st h).2 !! d = Some m.
Proof.
  intros H. unfold Demo.load.
  assert (Hd : d ∈ dom (dicts h)) by apply (elem_of_dom_2 _ _ _ H).
  destruct (Demo.st_parameters st) as [q |]; cbn [snd dicts].
  - assert (H1 : fresh (dom (dicts h)) <> d).
    { intros <-. apply (is_fresh (dom (dicts h))), Hd. }
    assert (H2 : fresh (dom (<[fresh (dom (dicts h)) := q]> (dicts h))) <> d).
    { intros Heq.
      apply (is_fresh (dom (<[fresh (dom (dicts h)) := q]> (dicts h)))).
      rewrite Heq. apply (elem_of_dom_2 _ _ m).
      rewrite lookup_insert_ne by exact H1. exact H. }
    rewrite !lookup_insert_ne by assumption. exact H.
  - rewrite lookup_insert_ne; [exact H |].
    intros <-. apply (is_fresh (dom (dicts h))), Hd.
Qed.

Lemma Demo_load_all_frame l h d m :
  dicts h !! d = Some m -> dicts (Demo.load_all l h).2 !! d = Some m.
Proof.
  revert h. induction l as [| st l IH]; intros h H; [exact H |].
  cbn [Demo.load_all].
  pose proof (Demo_load_frame st h d m H) as H1.
  destruct (Demo.load st h) as [a h1]. cbn [snd] in H1.
  specialize (IH h1 H1). destruct (Demo.load_all l h1) as [r h2]. exact IH.
Qed.

Lemma Demo_handle_frame : dict_frame Demo.handle.
Proof.
  intros X c w d m H. destruct c; cbn [Demo.handle].
  - destruct (Demo.files (ext w) !! path) as [l |]; [| exact H].
    destruct (last l) as [st |]; [| exact H].
    pose proof (Demo_load_frame st (heap w) d m H) as H1.
    destruct (Demo.load st (heap w)) as [a h]. exact H1.
  - destruct (Demo.files (ext w) !! path) as [l |]; [| exact H].
    pose proof (Demo_load_all_frame l (heap w) d m H) as H1.
    destruct (Demo.load_all l (heap w)) as [a h]. exact H1.
  - destruct name; exact H.
  - exact H.
  - destruct (Demo.calculator_fails (ext w)); exact H.
  - pose proof (Demo_load_frame (Demo.prototype (ext w)) (heap w) d m H) as H1.
    destruct (Demo.load (Demo.prototype (ext w)) (heap w)) as [a h]. exact H1.
  - exact H.
  - exact H.
  - exact H.
  - exact H.
  - exact H.
  - exact H.
  - exact H.
Qed.

(** ** The threshold stored in the metadata (C8) *)

Definition structure_read (ev : event) : option addr :=
  match ev with
  | EvCall (ase_io_read _) (inr atoms) _ => Some atoms
  | _ => None
  end.

(** The store the constructor of the NEB object left behind: the one
    in which [atoms.info['fmax']] is evaluated (line 155). *)
Definition neb_built (ev : event) : option store :=
  match ev with
  | EvCall (new_MLNEB _ _ _ _ _ _ _) (inr _) s => Some s
  | _ => None
  end.

Lemma omap_patch_events {A} (f : event -> option A) images :
  (forall image a, f (EvSetattr image a) = None) ->
  omap f (patch_events images) = [].
Proof.
  intros Hf. induction images as [| image images IH]; [reflexivity |].
  cbn [patch_events flat_map app omap list_omap] in *. rewrite !Hf. exact IH.
Qed.

(** What [run_mlneb] does with the entry ['fmax'] of the metadata: it
    must be there, and its value goes nowhere. *)
Definition fmax_read_and_dropped {A} (r : exn + A) (t : list event) : Prop :=
  forall atoms s,
    omap structure_read t = [atoms] ->
    omap neb_built t = [s] ->
    match (dicts s !!! info (objs s !!! atoms)) !! "fmax" with
    | None => r = inl (KeyError "fmax") /\ omap neb_threshold t = []
    | Some _ => omap neb_threshold t = [Dec 5 (-2)]
    end.

Section Fmax.
Context {E : Type}.
Variable handle : handler E.
Variable G : bindings.

Lemma run_mlneb_fmax start_file end_file out_file n_images interpolation restart w :
  wp (run_mlneb handle G start_file end_file out_file n_images interpolation restart)
     (fun r _ t => fmax_read_and_dropped r t) w.
Proof.
  unfold run_mlneb.
  repeat first [apply wp_for_each_patch | wp_step];
    intros ? ?; rewrite ?omap_app, ?(omap_patch_events _ _ (fun _ _ => eq_refl));
    cbn [omap list_omap structure_read neb_built neb_threshold app];
    intros Hatoms Hs; try discriminate Hs; try discriminate Hatoms.
  all: injection Hatoms as <-; injection Hs as <-.
  all: match goal with H : _ !! "fmax" = _ |- _ => rewrite H end.
  all: repeat split; reflexivity.
Qed.
End Fmax.

(** ** Which structure the loop copies from *)



(** ** The functions that have no database *)

Section NoDatabase.
Context {E : Type}.
Variable handle : handler E.
Variable G : bindings.



End NoDatabase.

(** ** The paths of a complete run *)






Section Paths.
Context {E : Type}.
Variable handle : handler E.
Variable G : bindings.


End Paths.

(** * The properties of the three functions *)

(** [catflow_relaxation()]: every argument left to its default, the
    structure read from 'input.traj'. *)
Definition relaxation_of_bulk : invocation := call_catflow_relaxation None None None.

Section Properties.
Context {E : Type}.
Variable handle : handler E.
Variable G : bindings.


(** C2: no function catches anything.  Every failure recorded in a run
    (a file that cannot be read, a name the optional imports left
    unbound, a calculator that fails) is the outcome of the run, the
    same exception, and a run that fails has recorded the failure that
    is its outcome.  (Only a failing database write inside the [with]
    statement is handed to the context manager first.) *)
Theorem failures_propagate_unmodified f w :
  propagates (outcome (invoke handle G f w)) (trace (invoke handle G f w)).
Proof. apply invoke_propagates. Qed.



(** C5, as the code has it: the conditions a run tests are, in order, those of
    [conditions_tested]: the calculator type in
    [get_potential_energy]; in [catflow_relaxation] whether each of the
    three arguments is [None], then the flags, the calculator type and
    the flags again; none in [run_mlneb]. *)
Theorem conditions_of_each_function f w :
  tests_of (conditions_tested f)
    (outcome (invoke handle G f w)) (trace (invoke handle G f w)).
Proof. apply invoke_tests. Qed.



(** C8: [run_mlneb] evaluates [atoms.info['fmax']] in the store the
    NEB constructor left: if the key is missing the run ends there with
    [KeyError('fmax')], the NEB not run; if it is there, whatever its
    value, the NEB runs once, with threshold 0.05. *)
Theorem fmax_is_read_and_not_used
    start_file end_file out_file n_images interpolation restart w atoms s :
  let run := run_mlneb handle G start_file end_file out_file
               n_images interpolation restart w in
  omap structure_read (trace run) = [atoms] ->
  omap neb_built (trace run) = [s] ->
  match (dicts s !!! info (objs s !!! atoms)) !! "fmax" with
  | None => outcome run = inl (KeyError "fmax") /\ omap neb_threshold (trace run) = []
  | Some _ => omap neb_threshold (trace run) = [Dec 5 (-2)]
  end.
Proof.
  cbv zeta. intros Hatoms Hs.
  apply (run_mlneb_fmax handle G start_file end_file out_file
           n_images interpolation restart w atoms s Hatoms Hs).
Qed.

(** C9: called without a calculator name, [catflow_relaxation] pops
    'calculator_name' from the mapping [parameters] is bound to: the
    caller's own, or the one under 'calculator_parameters' in the
    metadata of the caller's structure.  With collaborators that leave
    existing dictionaries alone, that mapping is without the key when
    the call is over, however it ends; its other entries are as they
    were, but for 'calculation'. *)
Theorem calculator_name_is_popped_in_place atoms parameters w p m v :
  dict_frame handle ->
  popped_from atoms parameters (heap w) = Some p ->
  dicts (heap w) !! p = Some m ->
  m !! "calculator_name" = Some v ->
  In (Tested CalculatorNameIsNone true)
     (observations (trace (catflow_relaxation handle G atoms None parameters w))) ->
  exists m',
    dicts (heap (final (catflow_relaxation handle G atoms None parameters w))) !! p
      = Some m' /\
    m' !! "calculator_name" = None /\
    forall k, k <> "calculator_name" -> k <> "calculation" -> m' !! k = m !! k.
Proof.
  intros Hframe Hfrom Hp Hk Hreached.
  destruct (catflow_relaxation_pops handle G Hframe atoms parameters w p m v
              Hfrom Hp Hk Hreached) as [H | H];
    eexists; (split; [exact H |]); split.
  - apply lookup_delete_eq.
  - intros k Hk1 Hk2. apply lookup_delete_ne. congruence.
  - rewrite lookup_insert_ne by discriminate. apply lookup_delete_eq.
  - intros k Hk1 Hk2. rewrite lookup_insert_ne by congruence.
    apply lookup_delete_ne. congruence.
Qed.


End Properties.

(** ** Runs in the concrete world *)

Definition bulk_run :=
  invoke Demo.handle Demo.both relaxation_of_bulk (Demo.start Demo.bulk Demo.primitive).



(** The trajectory a run read, with the store the reader left. *)
Definition trajectory_read (obs : list observation) : option (list addr * store) :=
  head (omap (fun o => match o with Trajectory images s => Some (images, s) | _ => None end)
          obs).

Lemma trajectory_read_In obs images s :
  trajectory_read obs = Some (images, s) -> In (Trajectory images s) obs.
Proof.
  unfold trajectory_read. induction obs as [| o obs IH]; [discriminate |].
  destruct o; cbn [omap list_omap head]; try (intros H; right; exact (IH H)).
  intros [= -> ->]. left. reflexivity.
Qed.


Definition neb_run :=
  run_mlneb Demo.handle Demo.both None None None None None None
    (Demo.start Demo.bulk Demo.primitive).

Definition held_run :=
  catflow_relaxation Demo.handle Demo.both (Some 0) None None
    (Demo.holding Demo.bulk Demo.primitive).


Lemma arguments_are_tested_too :
  ~ Forall (fun c => c = AllPbc \/ c = IsDecafEspresso) (conditions (trace bulk_run)).
Proof.
  apply (bool_decide_eq_false_1
           (Forall (fun c => c = AllPbc \/ c = IsDecafEspresso)
              (conditions (trace bulk_run)))).
  vm_compute. reflexivity.
Qed.




Lemma fmax_is_read_and_not_used_witness :
  exists atoms s,
    omap structure_read (trace neb_run) = [atoms] /\
    omap neb_built (trace neb_run) = [s] /\
    match (dicts s !!! info (objs s !!! atoms)) !! "fmax" with
    | None => outcome neb_run = inl (KeyError "fmax") /\
              omap neb_threshold (trace neb_run) = []
    | Some _ => omap neb_threshold (trace neb_run) = [Dec 5 (-2)]
    end.
Proof.
  assert (Hatoms : omap structure_read (trace neb_run) = [0]) by (vm_compute; reflexivity).
  assert (Hex : exists s, omap neb_built (trace neb_run) = [s])
    by (vm_compute; eexists; reflexivity).
  destruct Hex as [s Hs]. exists 0, s. split; [exact Hatoms |]. split; [exact Hs |].
  exact (fmax_is_read_and_not_used Demo.handle Demo.both None None None None None None
           (Demo.start Demo.bulk Demo.primitive) 0 s Hatoms Hs).
Defined.

Lemma calculator_name_is_popped_in_place_witness :
  popped_from (Some 0) None (heap (Demo.holding Demo.bulk Demo.primitive)) = Some 0 /\
  dicts (heap (Demo.holding Demo.bulk Demo.primitive)) !! 0
    = Some Demo.espresso_parameters /\
  Demo.espresso_parameters !! "calculator_name" = Some (VStr "decaf.Espresso") /\
  In (Tested CalculatorNameIsNone true) (observations (trace held_run)) /\
  exists m',
    dicts (heap (final held_run)) !! 0 = Some m' /\
    m' !! "calculator_name" = None /\
    forall k, k <> "calculator_name" -> k <> "calculation" ->
              m' !! k = Demo.espresso_parameters !! k.
Proof.
  assert (H1 : popped_from (Some 0) None (heap (Demo.holding Demo.bulk Demo.primitive))
               = Some 0) by (vm_compute; reflexivity).
  assert (H2 : dicts (heap (Demo.holding Demo.bulk Demo.primitive)) !! 0
               = Some Demo.espresso_parameters) by (vm_compute; reflexivity).
  assert (H3 : Demo.espresso_parameters !! "calculator_name" = Some (VStr "decaf.Espresso"))
    by (vm_compute; reflexivity).
  assert (H4 : In (Tested CalculatorNameIsNone true) (observations (trace held_run)))
    by (vm_compute; tauto).
  repeat (split; [assumption |]).
  exact (calculator_name_is_popped_in_place Demo.handle Demo.both (Some 0) None
           (Demo.holding Demo.bulk Demo.primitive) 0 Demo.espresso_parameters
           (VStr "decaf.Espresso") Demo_handle_frame H1 H2 H3 H4).
Defined.


(** Without the entry the run ends at line 155. *)
Example neb_run_without_fmax :
  outcome (run_mlneb Demo.handle Demo.both None None None None None None
             (World (Store ∅ ∅ ∅)
                (Demo.Env (<["input.traj" := [Demo.Stored Demo.bulk ∅ None]]> ∅)
                   (Demo.Stored Demo.primitive ∅ None) false [])))
  = inl (KeyError "fmax").
Proof. vm_compute. reflexivity. Qed.

(** A relaxation of the bulk structure returns three images, written
    to the database once. *)
Example bulk_run_returns :
  outcome bulk_run = inr "atoms,atoms,atoms" /\
  length (List.filter is_db_write (trace bulk_run)) = 1.
Proof. vm_compute. split; reflexivity. Qed.

(** * Further properties of the three functions *)

(** ** Without the optional imports *)

(** Nothing was read from a log and nothing was handed to the database
    or the encoder. *)
Definition nothing_came_out (obs : list observation) : Prop := Forall plain obs.

Section WithoutTheImports.
Context {E : Type}.
Variable handle : handler E.

Lemma invoke_never_returns_without_decaf ckutil_available f w :
  let run := invoke handle (import_optional false ckutil_available) f w in
  (exists e, outcome run = inl e) /\ nothing_came_out (observations (trace run)).
Proof.
  cbv zeta.
  apply (observing_start (invoke handle (import_optional false ckutil_available) f)
           (fun r _ obs => (exists e, r = inl e) /\ nothing_came_out obs)).
  change (import_optional false ckutil_available) with (Bindings false false).
  destruct f; cbn [invoke];
    [unfold get_potential_energy | unfold catflow_relaxation | unfold run_mlneb];
    repeat (observing_step; cbn [decaf_bound ckutil_bound]);
    cbn [rev app]; (split; [eexists; reflexivity | plain_list]).
Qed.

End WithoutTheImports.

Section WithoutCkutil.
Context {E : Type}.
Variable handle : handler E.

Lemma catflow_relaxation_needs_ckutil G atoms calculator_name parameters w :
  let run := catflow_relaxation handle G atoms calculator_name parameters w in
  ckutil_bound G = false ->
  periodic_input (observations (trace run)) ->
  outcome run = inl (NameError "ckutil") /\
  length (computations (observations (trace run))) = 1 /\
  resymmetrizations (observations (trace run)) = [] /\
  nothing_came_out (observations (trace run)).
Proof.
  cbv zeta. intros HG.
  apply (observing_start (catflow_relaxation handle G atoms calculator_name parameters)
           (fun r _ obs =>
              periodic_input obs ->
              r = inl (NameError "ckutil") /\
              length (computations obs) = 1 /\
              resymmetrizations obs = [] /\
              nothing_came_out obs)).
  unfold catflow_relaxation.
  repeat first [ at_line_92
               | apply observing_global_ckutil; rewrite HG
               | observing_step ];
    rewrite ?rev_app_distr, ?rev_involutive; cbn [rev app];
    unfold periodic_input; cbn [pbc_tests omap list_omap head];
    intros Hper; try discriminate Hper.
  all: repeat split; plain_list.
Qed.

End WithoutCkutil.

(** ** An empty log *)

Definition handed_over_lists (obs : list observation) : list (list addr) :=
  omap (fun o => match o with HandedOver images _ => Some images | _ => None end) obs.

(** If the log held no image, the run ended with [IndexError] and
    handed nothing over. *)
Definition empty_log_is_an_error {A} (r : exn + A) (obs : list observation) : Prop :=
  forall s, In (Trajectory [] s) obs -> r = inl IndexError /\ handed_over_lists obs = [].

Section Cut.
Context {E : Type}.

Lemma observing_cut {A} (m : M E A) (P : exn + A -> list observation -> Prop)
    seen Q (w : world E) :
  P (outcome (m w)) (observations (trace (m w))) ->
  (forall r w' obs, P r obs -> Q r w' (rev obs ++ seen)) ->
  observing m seen Q w.
Proof. intros HP HQ. apply HQ, HP. Qed.

End Cut.

Lemma empty_log_is_an_error_cons {A} (r : exn + A) o obs :
  inert o \/ (exists a f k, o = Calculator a f k) \/ (exists a, o = Computed a) \/
    (exists a, o = Resymmetrized a) ->
  empty_log_is_an_error r obs -> empty_log_is_an_error r (o :: obs).
Proof.
  intros Ho H s [Heq | Hin].
  - exfalso. subst o.
    destruct Ho as [[] | [(a & f & k & Ho) | [(a & Ho) | (a & Ho)]]]; discriminate Ho.
  - destruct (H s Hin) as [Hr Hh]. split; [exact Hr |].
    unfold handed_over_lists in *.
    destruct Ho as [Ho | [(a & f & k & ->) | [(a & ->) | (a & ->)]]];
      [destruct o; try destruct Ho |..]; exact Hh.
Qed.

Lemma empty_log_is_an_error_plain {A} (r : exn + A) obs :
  Forall plain obs -> empty_log_is_an_error r obs.
Proof. intros H s Hin. exfalso. exact (plain_not_read _ _ _ H Hin). Qed.

Section EmptyLog.
Context {E : Type}.
Variable handle : handler E.
Variable G : bindings.

Lemma catflow_relaxation_from_line_92_empty_log atoms calc data w :
  empty_log_is_an_error
    (outcome (catflow_relaxation_from_line_92 handle G atoms calc data w))
    (observations (trace (catflow_relaxation_from_line_92 handle G atoms calc data w))).
Proof.
  change (wp (catflow_relaxation_from_line_92 handle G atoms calc data)
            (fun r _ t => empty_log_is_an_error r (observations t)) w).
  unfold catflow_relaxation_from_line_92.
  repeat first [ apply wp_for_each_patch | wp_step ];
    observe_trace; intros ? Hin; cbn [In] in Hin;
    repeat (destruct Hin as [Hin | Hin]; [try discriminate Hin |]);
    try contradiction.
  all: split; reflexivity.
Qed.

End EmptyLog.

Ltac at_line_92_with lemma :=
  lazymatch goal with
  | |- observing (mbind _ (isinstance_decaf_Espresso _ _)) _ _ _ =>
      let Hcut := fresh "Hcut" in
      refine (observing_cut (catflow_relaxation_from_line_92 _ _ _ _ _) _ _ _ _
                (lemma _ _ _ _ _ _ _) _);
      intros ? ? ? Hcut
  end.

Ltac known_prefix :=
  repeat (apply empty_log_is_an_error_cons;
          [ first [ left; exact I
                  | right; left; eexists _, _, _; reflexivity
                  | right; right; left; eexists; reflexivity
                  | right; right; right; eexists; reflexivity ] |]).

Section EmptyLogOfTheRelaxation.
Context {E : Type}.
Variable handle : handler E.
Variable G : bindings.

Lemma catflow_relaxation_empty_log atoms calculator_name parameters w :
  empty_log_is_an_error
    (outcome (catflow_relaxation handle G atoms calculator_name parameters w))
    (observations (trace (catflow_relaxation handle G atoms calculator_name parameters w))).
Proof.
  apply (observing_start (catflow_relaxation handle G atoms calculator_name parameters)
           (fun r _ obs => empty_log_is_an_error r obs)).
  unfold catflow_relaxation.
  repeat first [ at_line_92_with (@catflow_relaxation_from_line_92_empty_log) | observing_step ];
    rewrite ?rev_app_distr, ?rev_involutive; cbn [rev app]; known_prefix;
    first [ exact Hcut | apply empty_log_is_an_error_plain; plain_list ].
Qed.

End EmptyLogOfTheRelaxation.

(** ** Missing entries *)

Definition is_call (ev : event) : bool :=
  match ev with
  | EvCall _ _ _ => true
  | _ => false
  end.

(** The run failed with [e] before any collaborator was called, and
    left the world as it found it. *)
Definition failed_at_once {E A} (e : exn) (w : world E)
    (run : (exn + A) * world E * list event) : Prop :=
  outcome run = inl e /\ final run = w /\ List.filter is_call (trace run) = [].

Section MissingEntries.
Context {E : Type}.
Variable handle : handler E.
Variable G : bindings.

Lemma catflow_relaxation_without_parameters a calculator_name w :
  (dicts (heap w) !!! info (objs (heap w) !!! a)) !! "calculator_parameters" = None ->
  failed_at_once (KeyError "calculator_parameters") w
    (catflow_relaxation handle G (Some a) calculator_name None w).
Proof.
  intros H.
  change (wp (catflow_relaxation handle G (Some a) calculator_name None)
            (fun r w' t => r = inl (KeyError "calculator_parameters") /\ w' = w /\
                           List.filter is_call t = []) w).
  unfold catflow_relaxation.
  repeat first [rewrite H | wp_step].
  destruct w. repeat split.
Qed.

Lemma catflow_relaxation_without_calculator_name a parameters p w :
  popped_from (Some a) parameters (heap w) = Some p ->
  (dicts (heap w) !!! p) !! "calculator_name" = None ->
  failed_at_once (KeyError "calculator_name") w
    (catflow_relaxation handle G (Some a) None parameters w).
Proof.
  intros Hfrom H.
  change (wp (catflow_relaxation handle G (Some a) None parameters)
            (fun r w' t => r = inl (KeyError "calculator_name") /\ w' = w /\
                           List.filter is_call t = []) w).
  unfold catflow_relaxation.
  destruct parameters as [p' |]; cbn [popped_from] in Hfrom.
  - injection Hfrom as ->.
    repeat first [rewrite H | wp_step]. destruct w. repeat split.
  - destruct ((dicts (heap w) !!! info (objs (heap w) !!! a)) !! "calculator_parameters")
      as [[| | | | | d] |] eqn:Hinfo; try discriminate Hfrom.
    injection Hfrom as ->.
    repeat first [rewrite Hinfo | rewrite H | wp_step]. destruct w. repeat split.
Qed.

End MissingEntries.

(** ** A parameter named like a keyword of the call *)

(** The class resolver knows the name. *)
Definition resolves {E} (handle : handler E) (name : string) : Prop :=
  forall w, exists cls, (handle _ (str_to_class (VStr name)) w).1 = inr cls.

Ltac until_the_next_call :=
  lazymatch goal with
  | |- observing (perform _ _) _ _ _ => fail
  | |- _ => observing_step
  end.

Section DuplicateKeyword.
Context {E : Type}.
Variable handle : handler E.
Variable G : bindings.

Lemma catflow_relaxation_duplicate_calc_file a name p v w :
  let run := catflow_relaxation handle G (Some a) (Some name) (Some p) w in
  resolves handle name ->
  (dicts (heap w) !!! p) !! "calc_file" = Some v ->
  outcome run = inl (TypeError "got multiple values for keyword argument") /\
  calculators (observations (trace run)) = [] /\
  computations (observations (trace run)) = [].
Proof.
  cbv zeta. intros Hres Hkey.
  assert (Hdom : fresh (dom (dicts (heap w))) <> p).
  { intros <-. rewrite lookup_total_alt in Hkey.
    rewrite (not_elem_of_dom_1 (dicts (heap w)) (fresh (dom (dicts (heap w))))) in Hkey
      by apply is_fresh.
    discriminate Hkey. }
  apply (observing_start (catflow_relaxation handle G (Some a) (Some name) (Some p))
           (fun r _ obs =>
              r = inl (TypeError "got multiple values for keyword argument") /\
              calculators obs = [] /\ computations obs = [])).
  unfold catflow_relaxation.
  repeat until_the_next_call.
  apply observing_perform. intros o w1 Hcall.
  destruct (Hres (World (set_dicts (<[fresh (dom (dicts (heap w))) :=
                                      dicts (heap w) !!! info (objs (heap w) !!! a)]>
                                      (dicts (heap w))) (heap w)) (ext w)))
    as [cls Hcls].
  rewrite Hcall in Hcls. cbn [fst] in Hcls. subst o. cbn [reads_only heap ext].
  cbv beta iota.
  apply observing_bind, observing_unpack.
  cbn [heap dicts set_dicts forallb].
  rewrite lookup_total_insert_ne by exact Hdom. rewrite Hkey.
  rewrite bool_decide_eq_false_2 by discriminate.
  cbn [andb rev app]. repeat split.
Qed.

End DuplicateKeyword.

(** ** What the functions do to dictionaries *)

Section KeepsMore.
Context {E : Type}.
Variable I : store -> Prop.

Lemma keeps_dict_getitem d k : keeps (E := E) I (dict_getitem d k).
Proof.
  apply keeps_unchanged. intros w.
  unfold dict_getitem, dict_items, read_store, final, mbind, M_bind. simpl.
  destruct ((dicts (heap w) !!! d) !! k); reflexivity.
Qed.

Lemma keeps_dict_pop d k :
  (forall s, I s -> I (set_dicts (<[d := delete k (dicts s !!! d)]> (dicts s)) s)) ->
  keeps (E := E) I (dict_pop d k).
Proof.
  intros H w Hw.
  unfold dict_pop, dict_items, dict_store, read_store, write_store, final, mbind, M_bind.
  simpl. destruct ((dicts (heap w) !!! d) !! k); simpl; [apply H |]; exact Hw.
Qed.

Lemma keeps_dict_setitem d k v :
  (forall s, I s -> I (set_dicts (<[d := <[k := v]> (dicts s !!! d)]> (dicts s)) s)) ->
  keeps (E := E) I (dict_setitem d k v).
Proof. intros H w Hw. apply (H (heap w)), Hw. Qed.

(** What follows [the_dict v e] runs only if [v] is a dictionary. *)
Lemma keeps_the_dict_bind {B} v e (f : addr -> M E B) :
  (forall d, v = VDict d -> keeps I (f d)) -> keeps I (the_dict v e ≫= f).
Proof.
  intros H. destruct v as [| b | z | q | s | d];
    try (apply keeps_unchanged; reflexivity).
  specialize (H d eq_refl). intros w Hw. specialize (H w Hw). revert H.
  unfold final, the_dict, mbind, M_bind, mret, M_ret. simpl.
  destruct (f d w) as [[r w2] t2]. auto.
Qed.

(** A value returned as it stands is known to what follows. *)
Lemma keeps_bind_ret {A B C} (m : M E A) (v : B) (f : B -> M E C) :
  keeps I m -> keeps I (f v) -> keeps I ((m ≫= fun _ => mret v) ≫= f).
Proof.
  intros Hm Hf w Hw. specialize (Hm w Hw). revert Hm.
  unfold final, mbind, M_bind, mret, M_ret.
  destruct (m w) as [[[e | a] w1] t1]; simpl; [auto |].
  intros H1. specialize (Hf w1 H1). revert Hf. unfold final.
  destruct (f v w1) as [[r w2] t2]; auto.
Qed.

End KeepsMore.

(** In [s], dictionary [d] has the entries of [m], apart from
    'calculator_name' and 'calculation'. *)
Definition entries_kept (d : addr) (m : gmap string val) (s : store) : Prop :=
  exists m', dicts s !! d = Some m' /\
    forall k, k <> "calculator_name" -> k <> "calculation" -> m' !! k = m !! k.

Definition dict_kept (d : addr) (m : gmap string val) (s : store) : Prop :=
  dicts s !! d = Some m.

Lemma fresh_is_not d m (s : store) : dicts s !! d = Some m -> fresh (dom (dicts s)) <> d.
Proof. intros H <-. apply (is_fresh (dom (dicts s))), (elem_of_dom_2 _ _ _ H). Qed.

Lemma dict_kept_objs d m s o : dict_kept d m s -> dict_kept d m (set_objs o s).
Proof. auto. Qed.

Lemma dict_kept_copy d m s m' :
  dict_kept d m s ->
  dict_kept d m (set_dicts (<[fresh (dom (dicts s)) := m']> (dicts s)) s).
Proof.
  unfold dict_kept. cbn [dicts set_dicts]. intros H.
  rewrite lookup_insert_ne by exact (fresh_is_not d m s H). exact H.
Qed.

Lemma dict_kept_elsewhere d m s p m' :
  d <> p -> dict_kept d m s -> dict_kept d m (set_dicts (<[p := m']> (dicts s)) s).
Proof.
  unfold dict_kept. cbn [dicts set_dicts]. intros Hne H.
  rewrite lookup_insert_ne by congruence. exact H.
Qed.

Lemma dict_kept_handle {E} (handle : handler E) d m :
  dict_frame handle ->
  forall X (c : call X) w, dict_kept d m (heap w) -> dict_kept d m (heap (handle X c w).2).
Proof. intros Hf X c w H. apply Hf, H. Qed.

Lemma entries_kept_objs d m s o : entries_kept d m s -> entries_kept d m (set_objs o s).
Proof. auto. Qed.

Lemma entries_kept_copy d m s m' :
  entries_kept d m s ->
  entries_kept d m (set_dicts (<[fresh (dom (dicts s)) := m']> (dicts s)) s).
Proof.
  intros (m1 & H & Hk). exists m1. split; [| exact Hk]. cbn [dicts set_dicts].
  rewrite lookup_insert_ne by exact (fresh_is_not d m1 s H). exact H.
Qed.

Lemma entries_kept_calculation d m s p :
  entries_kept d m s ->
  entries_kept d m
    (set_dicts (<[p := <["calculation" := VStr "scf"]> (dicts s !!! p)]> (dicts s)) s).
Proof.
  intros (m1 & H & Hk). cbn [dicts set_dicts]. destruct (decide (p = d)) as [-> | Hne].
  - eexists. split; [apply lookup_insert_eq |].
    intros k H1 H2. rewrite lookup_insert_ne by congruence.
    rewrite (lookup_total_correct _ _ _ H). apply Hk; assumption.
  - exists m1. split; [| exact Hk]. unfold entries_kept. cbn [dicts set_dicts].
    rewrite lookup_insert_ne by exact Hne. exact H.
Qed.

Lemma entries_kept_pop d m s p :
  entries_kept d m s ->
  entries_kept d m
    (set_dicts (<[p := delete "calculator_name" (dicts s !!! p)]> (dicts s)) s).
Proof.
  intros (m1 & H & Hk). cbn [dicts set_dicts]. destruct (decide (p = d)) as [-> | Hne].
  - eexists. split; [apply lookup_insert_eq |].
    intros k H1 H2. rewrite lookup_delete_ne by congruence.
    rewrite (lookup_total_correct _ _ _ H). apply Hk; assumption.
  - exists m1. split; [| exact Hk]. cbn [dicts set_dicts].
    rewrite lookup_insert_ne by exact Hne. exact H.
Qed.

Lemma entries_kept_handle {E} (handle : handler E) d m :
  dict_frame handle ->
  forall X (c : call X) w,
    entries_kept d m (heap w) -> entries_kept d m (heap (handle X c w).2).
Proof. intros Hf X c w (m1 & H & Hk). exists m1. split; [apply Hf, H | exact Hk]. Qed.

Ltac keeps_more :=
  lazymatch goal with
  | |- keeps _ (mbind _ (mbind (fun _ => mret _) _)) => apply keeps_bind_ret
  | |- keeps _ (mbind _ (the_dict _ _)) =>
      apply keeps_the_dict_bind;
      let d := fresh "d" in
      let Heq := fresh "Heq" in
      intros d Heq; first [injection Heq as <- | subst]
  | |- keeps _ (dict_getitem _ _) => apply keeps_dict_getitem
  | |- keeps _ (dict_pop _ _) => apply keeps_dict_pop; intros ?; auto
  | |- keeps _ (dict_setitem _ _ _) => apply keeps_dict_setitem; intros ?; auto
  | |- _ => keeps_step
  end.

Ltac unfold_the_functions :=
  unfold get_potential_energy, catflow_relaxation, run_mlneb,
    isinstance_decaf_Espresso, with_db_Connect, patch.

Section Dictionaries.
Context {E : Type}.
Variable handle : handler E.
Variable G : bindings.
Hypothesis frame : dict_frame handle.

Lemma invoke_keeps_entries d m f :
  keeps (entries_kept d m) (invoke handle G f).
Proof.
  pose proof (entries_kept_objs d m) as I_objs.
  pose proof (entries_kept_handle handle d m frame) as I_handle.
  pose proof (entries_kept_copy d m) as I_copy.
  pose proof (entries_kept_calculation d m) as I_calculation.
  pose proof (entries_kept_pop d m) as I_pop.
  destruct f; cbn [invoke]; unfold_the_functions; repeat keeps_more.
Qed.

Lemma invoke_keeps_dictionaries d m f :
  match f with
  | call_catflow_relaxation _ _ (Some p) => d <> p
  | call_catflow_relaxation _ _ None => False
  | _ => True
  end ->
  keeps (dict_kept d m) (invoke handle G f).
Proof.
  pose proof (dict_kept_objs d m) as I_objs.
  pose proof (dict_kept_handle handle d m frame) as I_handle.
  pose proof (dict_kept_copy d m) as I_copy.
  destruct f as [calculator in_file out_file
                | atoms calculator_name [p |]
                | start_file end_file out_file n_images interpolation restart];
    intros Hd; try contradiction; cbn [invoke]; unfold_the_functions.
  - repeat keeps_more.
  - pose proof (fun m' s => dict_kept_elsewhere d m s p m' Hd) as I_elsewhere.
    repeat keeps_more.
  - repeat keeps_more.
Qed.

End Dictionaries.

(** ** A write that fails (lines 109-110) *)

Definition write_failure (ev : event) : option exn :=
  match ev with
  | EvCall (update_bulk_entry _ _) (inl e) _ => Some e
  | _ => None
  end.

(** What the manager was told on leaving, and what it answered. *)
Definition manager_left (ev : event) : option (option exn * (exn + bool)) :=
  match ev with
  | EvCall (db_exit _ exc) o _ => Some (exc, o)
  | _ => None
  end.

(** If the write raised [e], the manager was left once and told [e];
    if it answered true the run went on to the encoder, if it answered
    false [e] is the outcome, and if leaving raised, that is. *)
Definition failed_write_is_handled {A} (r : exn + A) (t : list event) : Prop :=
  forall e, head (omap write_failure t) = Some e ->
    exists answer,
      omap manager_left t = [(Some e, answer)] /\
      match answer with
      | inr true => existsb is_encode t = true
      | inr false => r = inl e
      | inl e' => r = inl e'
      end.

Lemma quiet_for_the_database ev :
  ok ev -> write_failure ev = None /\ manager_left ev = None.
Proof.
  intros [_ Hdb]. destruct ev as [X c o s | | |]; try (split; reflexivity).
  destruct c; try (split; reflexivity); discriminate Hdb.
Qed.

Lemma omap_quiet {A} (f : event -> option A) t1 t2 :
  Forall (fun ev => f ev = None) t1 -> omap f (t1 ++ t2) = omap f t2.
Proof.
  induction 1 as [| ev t1 Hev _ IH]; [reflexivity |].
  cbn [app omap list_omap]. rewrite Hev. exact IH.
Qed.

Lemma failed_write_is_handled_extends {A} :
  extends_over_prefix (@failed_write_is_handled A).
Proof.
  split.
  - intros t1 r t2 H1 H e.
    rewrite (omap_quiet write_failure), (omap_quiet manager_left);
      try (eapply Forall_impl; [exact H1 |]; intros ev Hev;
           apply (quiet_for_the_database ev Hev)).
    intros He. destruct (H e He) as (answer & Hleft & Hans).
    exists answer. split; [exact Hleft |].
    destruct answer as [e' | [|]]; try exact Hans.
    rewrite existsb_app, Hans. apply orb_true_r.
  - intros t0 ev e H0 Hev Hdb e'.
    rewrite (omap_quiet write_failure t0 [ev]);
      try (eapply Forall_impl; [exact H0 |]; intros ev' Hev';
           apply (quiet_for_the_database ev' Hev')).
    destruct ev as [X c o s | | |]; try discriminate.
    destruct c; try discriminate; destruct o; discriminate.
Qed.

Section FailedWrite.
Context {E : Type}.
Variable handle : handler E.
Variable G : bindings.

Lemma persist_and_encode_failed_write images w :
  wp (with_db_Connect handle
        (fun dbflow => perform handle (update_bulk_entry dbflow images));;
      perform handle (atoms_to_encode images))
     (fun r _ t => failed_write_is_handled r t) w.
Proof.
  repeat wp_step; intros ?; cbn [app omap list_omap write_failure manager_left head];
    intros He; try discriminate He; injection He as <-;
    eexists; (split; [reflexivity |]); reflexivity.
Qed.

Lemma catflow_relaxation_failed_write atoms calculator_name parameters w :
  let run := catflow_relaxation handle G atoms calculator_name parameters w in
  failed_write_is_handled (outcome run) (trace run).
Proof.
  cbv zeta. revert w. unfold catflow_relaxation.
  repeat (apply after_orderly;
          [ apply failed_write_is_handled_extends
          | solve [repeat orderly_step]
          | intros ?;
            try lazymatch goal with
                | |- context [match ?p with (_, _) => _ end] => destruct p
                end ]).
  intros w. exact (persist_and_encode_failed_write _ w).
Qed.

End FailedWrite.

(** ** The patch loop as a whole *)

Lemma patch_all_elsewhere atoms images (o : gmap addr Atoms) j :
  j ∉ images -> patch_all atoms images o !!! j = o !!! j.
Proof.
  revert o. induction images as [| i images IH]; intros o Hj; [reflexivity |].
  apply not_elem_of_cons in Hj as [Hne Hj]. cbn [patch_all foldl].
  fold (patch_all atoms images (patch_image atoms i o)). rewrite (IH _ Hj).
  rewrite patch_image_insert. apply lookup_total_insert_ne. congruence.
Qed.

(** ** The parameters of [get_potential_energy] (line 36) *)

Definition structure_read_in (ev : event) : option (addr * store) :=
  match ev with
  | EvCall (ase_io_read _) (inr atoms) s => Some (atoms, s)
  | _ => None
  end.

Definition class_resolved (ev : event) : bool :=
  match ev with
  | EvCall (str_to_class _) (inr _) _ => true
  | _ => false
  end.

Definition instantiated (ev : event) : bool :=
  match ev with
  | EvCall (new_calculator _ _ _ _) _ _ => true
  | _ => false
  end.

Section ParametersOfTheEnergy.
Context {E : Type}.
Variable handle : handler E.
Variable G : bindings.

Lemma get_potential_energy_without_parameters calculator in_file out_file w :
  wp (get_potential_energy handle G calculator in_file out_file)
     (fun r _ t =>
        forall atoms s,
          omap structure_read_in t = [(atoms, s)] ->
          (dicts s !!! info (objs s !!! atoms)) !! "calculator_parameters" = None ->
          existsb class_resolved t = true ->
          r = inl (KeyError "calculator_parameters") /\ existsb instantiated t = false) w.
Proof.
  unfold get_potential_energy.
  repeat first [apply wp_for_each_patch | wp_step];
    intros ? ?; rewrite ?omap_app, ?existsb_app,
                  ?(omap_patch_events _ _ (fun _ _ => eq_refl));
    cbn [omap list_omap structure_read_in class_resolved instantiated existsb app orb];
    intros Hread Hnone Hres; try discriminate Hread; try discriminate Hres.
  all: injection Hread as <- <-.
  all: try (split; reflexivity).
  all: congruence.
Qed.

End ParametersOfTheEnergy.

(** ** The parameters of the second calculator (lines 88-89) *)

Lemma dict_at_copy s p (M m' : gmap string val) :
  dicts s !! p = Some M ->
  dicts (set_dicts (<[fresh (dom (dicts s)) := m']> (dicts s)) s) !! p = Some M.
Proof.
  intros H. cbn [dicts set_dicts]. rewrite lookup_insert_ne; [exact H |].
  intros <-. apply (is_fresh (dom (dicts s))), (elem_of_dom_2 _ _ _ H).
Qed.

Lemma dict_at_pop s p k (M : gmap string val) :
  dicts s !! p = Some M ->
  dicts (set_dicts (<[p := delete k M]> (dicts s)) s) !! p = Some (delete k M).
Proof. intros _. apply lookup_insert_eq. Qed.

Lemma dict_at_setitem s p k v (M : gmap string val) :
  dicts s !! p = Some M ->
  dicts (set_dicts (<[p := <[k := v]> M]> (dicts s)) s) !! p = Some (<[k := v]> M).
Proof. intros _. apply lookup_insert_eq. Qed.

(** One step of a run in which the dictionary [p] is followed: [Hp]
    says what it holds in the store at hand; [frame] is the frame
    condition of the collaborators. *)
Ltac following frame p Hp :=
  lazymatch goal with
  | |- observing (perform _ ?c) _ _ ?w =>
      let o := fresh "o" in
      let w1 := fresh "w" in
      let Hcall := fresh "Hcall" in
      apply observing_perform; intros o w1 Hcall;
      lazymatch eval cbv in (reads_only c) with
      | true => idtac
      | false =>
          apply (frame _ c w p) in Hp; rewrite Hcall in Hp; cbn [snd] in Hp
      end;
      cbn [reads_only]; destruct o
  | |- observing (dict_copy _) _ _ _ =>
      apply observing_dict_copy;
      lazymatch goal with
      | |- context [set_dicts (<[fresh _ := ?m']> _) _] =>
          apply (dict_at_copy _ p _ m') in Hp
      end
  | |- observing (dict_pop _ ?k) _ _ _ =>
      apply observing_dict_pop; rewrite (lookup_total_correct _ _ _ Hp);
      apply (dict_at_pop _ p k) in Hp
  | |- observing (dict_setitem _ ?k ?v) _ _ _ =>
      apply observing_dict_setitem; rewrite (lookup_total_correct _ _ _ Hp);
      apply (dict_at_setitem _ p k v) in Hp
  | |- observing (unpack _ _) _ _ _ =>
      apply observing_unpack; rewrite (lookup_total_correct _ _ _ Hp)
  | |- _ => observing_step
  end;
  cbv beta iota; cbn [push observe heap ext].

Section SecondParameters.
Context {E : Type}.
Variable handle : handler E.
Variable G : bindings.
Hypothesis frame : dict_frame handle.

Lemma catflow_relaxation_second_parameters atoms calculator_name p m w :
  dicts (heap w) !! p = Some m ->
  forall first second,
    calculators (observations
                   (trace (catflow_relaxation handle G atoms calculator_name (Some p) w)))
    = [first; second] ->
    second.2 = <["calculation" := VStr "scf"]> first.2.
Proof.
  intros Hp.
  apply (observing_start (catflow_relaxation handle G atoms calculator_name (Some p))
           (fun _ _ obs => forall first second,
              calculators obs = [first; second] ->
              second.2 = <["calculation" := VStr "scf"]> first.2)).
  unfold catflow_relaxation.
  repeat first [at_line_92 | following frame p Hp];
    rewrite ?rev_app_distr, ?rev_involutive; cbn [rev app];
    unfold calculators; cbn [omap list_omap];
    try (fold (calculators obs);
         rewrite (proj1 (observed_from_line_92_quiet _ _ _ Hshape)));
    intros first second Heq; try discriminate Heq;
    injection Heq as <- <-; reflexivity.
Qed.
End SecondParameters.

(** ** The caller's parameters after the call (line 88) *)

Section FromLine92Dictionaries.
Context {E : Type}.
Variable handle : handler E.
Variable G : bindings.
Hypothesis frame : dict_frame handle.

Lemma catflow_relaxation_from_line_92_keeps_dictionaries d m atoms calc data :
  keeps (dict_kept d m) (catflow_relaxation_from_line_92 handle G atoms calc data).
Proof.
  pose proof (dict_kept_objs d m) as I_objs.
  pose proof (dict_kept_handle handle d m frame) as I_handle.
  unfold catflow_relaxation_from_line_92, isinstance_decaf_Espresso, with_db_Connect,
    patch.
  repeat keeps_step.
Qed.

Lemma observing_from_line_92_keeping d m atoms calc data seen Q (w : world E) :
  dicts (heap w) !! d = Some m ->
  (forall r w' obs,
     observed_from_line_92 atoms data obs -> dicts (heap w') !! d = Some m ->
     Q r w' (rev obs ++ seen)) ->
  observing (catflow_relaxation_from_line_92 handle G atoms calc data) seen Q w.
Proof.
  intros Hd HQ. apply HQ.
  - apply catflow_relaxation_from_line_92_observed.
  - apply (catflow_relaxation_from_line_92_keeps_dictionaries d m), Hd.
Qed.

End FromLine92Dictionaries.

Ltac at_line_92_keeping frame Hp :=
  lazymatch goal with
  | |- observing (mbind _ (isinstance_decaf_Espresso _ _)) _ _ _ =>
      let Hshape := fresh "Hshape" in
      let Hkept := fresh "Hkept" in
      refine (observing_from_line_92_keeping _ _ frame _ _ _ _ _ _ _ _ Hp _);
      intros ? ? ? Hshape Hkept
  end.

Section CallersParameters.
Context {E : Type}.
Variable handle : handler E.
Variable G : bindings.
Hypothesis frame : dict_frame handle.

Lemma catflow_relaxation_sets_calculation atoms name p m w :
  let run := catflow_relaxation handle G atoms (Some name) (Some p) w in
  dicts (heap w) !! p = Some m ->
  dicts (heap (final run)) !! p =
  Some (match resymmetrizations (observations (trace run)) with
        | [] => m
        | _ :: _ => <["calculation" := VStr "scf"]> m
        end).
Proof.
  cbv zeta. intros Hp.
  apply (observing_start (catflow_relaxation handle G atoms (Some name) (Some p))
           (fun _ w' obs =>
              dicts (heap w') !! p =
              Some (match resymmetrizations obs with
                    | [] => m
                    | _ :: _ => <["calculation" := VStr "scf"]> m
                    end))).
  unfold catflow_relaxation.
  repeat first [at_line_92_keeping frame Hp | following frame p Hp];
    rewrite ?rev_app_distr, ?rev_involutive; cbn [rev app];
    unfold resymmetrizations; cbn [omap list_omap];
    try (fold (resymmetrizations obs);
         rewrite (proj2 (proj2 (observed_from_line_92_quiet _ _ _ Hshape))));
    first [exact Hp | exact Hkept].
Qed.

End CallersParameters.

(** * Further properties, stated *)

Section Further.
Context {E : Type}.
Variable handle : handler E.
Variable G : bindings.

(** X1: when [decaf] could not be imported, no call of any of the three
    functions returns: every run ends in an exception, and none reads a
    log or hands a trajectory to the database or the encoder.  The
    import is optional only to the [import] statement. *)
Theorem no_function_returns_without_decaf ckutil_available f w :
  (exists e, outcome (invoke handle (import_optional false ckutil_available) f w) = inl e) /\
  nothing_came_out
    (observations (trace (invoke handle (import_optional false ckutil_available) f w))).
Proof. apply invoke_never_returns_without_decaf. Qed.

(** X2: when [ckutil] is not bound, a relaxation of a structure that is
    periodic in all three directions ends with [NameError('ckutil')]
    at line 87: after the one calculation, with nothing resymmetrized,
    read or handed over. *)
Theorem periodic_relaxation_needs_ckutil atoms calculator_name parameters w :
  ckutil_bound G = false ->
  periodic_input
    (observations (trace (catflow_relaxation handle G atoms calculator_name parameters w))) ->
  outcome (catflow_relaxation handle G atoms calculator_name parameters w)
    = inl (NameError "ckutil") /\
  length (computations
            (observations
               (trace (catflow_relaxation handle G atoms calculator_name parameters w))))
    = 1 /\
  resymmetrizations
    (observations (trace (catflow_relaxation handle G atoms calculator_name parameters w)))
    = [] /\
  nothing_came_out
    (observations (trace (catflow_relaxation handle G atoms calculator_name parameters w))).
Proof. apply catflow_relaxation_needs_ckutil. Qed.

(** X3: if the log 'pw0.pwo' holds no image, [catflow_relaxation] ends
    with [IndexError] at [images[0]] (lines 95, 100), and nothing is
    written to the database or encoded. *)
Theorem empty_log_ends_the_relaxation atoms calculator_name parameters w s :
  In (Trajectory [] s)
     (observations (trace (catflow_relaxation handle G atoms calculator_name parameters w))) ->
  outcome (catflow_relaxation handle G atoms calculator_name parameters w)
    = inl IndexError /\
  handed_over_lists
    (observations (trace (catflow_relaxation handle G atoms calculator_name parameters w)))
    = [].
Proof. apply catflow_relaxation_empty_log. Qed.

(** X4: called with a structure whose metadata has no
    'calculator_parameters' and without parameters,
    [catflow_relaxation] raises [KeyError('calculator_parameters')]
    before it calls any collaborator; the store is as it was. *)
Theorem relaxation_without_parameters_fails_at_once a calculator_name w :
  (dicts (heap w) !!! info (objs (heap w) !!! a)) !! "calculator_parameters" = None ->
  failed_at_once (KeyError "calculator_parameters") w
    (catflow_relaxation handle G (Some a) calculator_name None w).
Proof. apply catflow_relaxation_without_parameters. Qed.

(** X5: called without a calculator name and with parameters that have
    no 'calculator_name', [catflow_relaxation] raises
    [KeyError('calculator_name')] before it calls any collaborator; the
    parameters and the rest of the store are as they were. *)
Theorem relaxation_without_calculator_name_fails_at_once a parameters p w :
  popped_from (Some a) parameters (heap w) = Some p ->
  (dicts (heap w) !!! p) !! "calculator_name" = None ->
  failed_at_once (KeyError "calculator_name") w
    (catflow_relaxation handle G (Some a) None parameters w).
Proof. apply catflow_relaxation_without_calculator_name. Qed.

(** X6: parameters that contain 'calc_file' collide with the keyword
    [calc_file='pw0.pwi'] of line 79: once the class is resolved the
    call is a [TypeError], and no calculator is instantiated and
    nothing computed. *)
Theorem calc_file_among_the_parameters_is_a_type_error a name p v w :
  resolves handle name ->
  (dicts (heap w) !!! p) !! "calc_file" = Some v ->
  outcome (catflow_relaxation handle G (Some a) (Some name) (Some p) w)
    = inl (TypeError "got multiple values for keyword argument") /\
  calculators
    (observations (trace (catflow_relaxation handle G (Some a) (Some name) (Some p) w)))
    = [] /\
  computations
    (observations (trace (catflow_relaxation handle G (Some a) (Some name) (Some p) w)))
    = [].
Proof. apply catflow_relaxation_duplicate_calc_file. Qed.

(** X7: with collaborators that leave existing dictionaries alone, a
    call of any of the three functions leaves every entry of every
    existing dictionary as it was, other than 'calculator_name' and
    'calculation'. *)
Theorem entries_of_dictionaries_are_kept f w d m :
  dict_frame handle ->
  dicts (heap w) !! d = Some m ->
  entries_kept d m (heap (final (invoke handle G f w))).
Proof.
  intros Hframe Hd. apply (invoke_keeps_entries handle G Hframe d m f w).
  exists m. split; [exact Hd | reflexivity].
Qed.

(** X8: with such collaborators, [get_potential_energy] and
    [run_mlneb] leave every existing dictionary exactly as it was, and
    so does [catflow_relaxation], called with parameters, but for the
    parameters. *)
Theorem other_dictionaries_are_untouched f w d m :
  match f with
  | call_catflow_relaxation _ _ (Some p) => d <> p
  | call_catflow_relaxation _ _ None => False
  | _ => True
  end ->
  dict_frame handle ->
  dicts (heap w) !! d = Some m ->
  dicts (heap (final (invoke handle G f w))) !! d = Some m.
Proof.
  intros Hf Hframe Hd. exact (invoke_keeps_dictionaries handle G Hframe d m f Hf w Hd).
Qed.

(** X9: the patch loop (lines 48-50, 105-107, 170-172) never fails and
    touches objects only: when it is over every image of the list has
    the constraints and flags the source had before the loop, also if
    the source is one of the images; a structure that is not in the
    list is as it was; positions, cell, metadata, energy and calculator
    of every structure are as they were. *)
Theorem patch_loop_postcondition atoms images (w : world E) :
  let run := for_each images (patch atoms) w in
  let before := objs (heap w) in
  let after := objs (heap (final run)) in
  outcome run = inr tt /\
  ext (final run) = ext w /\
  dicts (heap (final run)) = dicts (heap w) /\
  calcs (heap (final run)) = calcs (heap w) /\
  Forall (fun i => constraints (after !!! i) = constraints (before !!! atoms) /\
                   pbc (after !!! i) = pbc (before !!! atoms)) images /\
  forall j, (j ∈ images \/ after !!! j = before !!! j) /\
            same_payload (after !!! j) (before !!! j).
Proof.
  cbv zeta. rewrite for_each_patch. unfold outcome, final. cbn [fst snd heap ext].
  repeat split.
  - apply Forall_forall. intros i Hi. apply patch_all_images, Hi.
  - destruct (decide (j ∈ images)) as [Hj | Hj]; [left; exact Hj | right].
    apply patch_all_elsewhere, Hj.
  - apply patch_all_payload.
  - apply patch_all_payload.
  - apply patch_all_payload.
  - apply patch_all_payload.
  - apply patch_all_payload.
Qed.

(** X10: if [update_bulk_entry] raises [e], the context manager is left
    once and is told [e]; if it answers true the exception is dropped
    and the run goes on to the encoder, if it answers false [e] is the
    outcome of [catflow_relaxation], and if leaving raises, that
    exception is. *)
Theorem failed_write_goes_through_the_manager atoms calculator_name parameters w e :
  head (omap write_failure
          (trace (catflow_relaxation handle G atoms calculator_name parameters w)))
    = Some e ->
  exists answer,
    omap manager_left
      (trace (catflow_relaxation handle G atoms calculator_name parameters w))
      = [(Some e, answer)] /\
    match answer with
    | inr true =>
        existsb is_encode
          (trace (catflow_relaxation handle G atoms calculator_name parameters w)) = true
    | inr false =>
        outcome (catflow_relaxation handle G atoms calculator_name parameters w) = inl e
    | inl e' =>
        outcome (catflow_relaxation handle G atoms calculator_name parameters w) = inl e'
    end.
Proof. apply catflow_relaxation_failed_write. Qed.

(** X11: with collaborators that leave existing dictionaries alone,
    when [catflow_relaxation], called with parameters, instantiates two
    calculators, the second is given the keyword arguments of the first
    with 'calculation' set to 'scf'. *)
Theorem second_calculator_gets_the_parameters_and_scf
    atoms calculator_name p m w first second :
  dict_frame handle ->
  dicts (heap w) !! p = Some m ->
  calculators (observations
                 (trace (catflow_relaxation handle G atoms calculator_name (Some p) w)))
    = [first; second] ->
  second.2 = <["calculation" := VStr "scf"]> first.2.
Proof.
  intros Hframe Hp.
  apply (catflow_relaxation_second_parameters handle G Hframe atoms calculator_name
           p m w Hp).
Qed.

(** X12: with such collaborators, [catflow_relaxation] called with a
    calculator name and parameters leaves the caller's parameters as
    they were if the run did not resymmetrize, and with 'calculation'
    set to 'scf' if it did (line 88), however the run ends. *)
Theorem bulk_relaxation_leaves_scf_in_the_parameters atoms name p m w :
  dict_frame handle ->
  dicts (heap w) !! p = Some m ->
  dicts (heap (final (catflow_relaxation handle G atoms (Some name) (Some p) w))) !! p =
  Some (match resymmetrizations
                (observations
                   (trace (catflow_relaxation handle G atoms (Some name) (Some p) w)))
        with
        | [] => m
        | _ :: _ => <["calculation" := VStr "scf"]> m
        end).
Proof.
  intros Hframe Hp.
  apply (catflow_relaxation_sets_calculation handle G Hframe atoms name p m w Hp).
Qed.

(** X13: if the structure [get_potential_energy] read has no
    'calculator_parameters' in its metadata, then, once the class is
    resolved, the run ends with [KeyError('calculator_parameters')] and
    no calculator is instantiated. *)
Theorem energy_without_parameters_is_a_key_error
    calculator in_file out_file w atoms s :
  omap structure_read_in
    (trace (get_potential_energy handle G calculator in_file out_file w))
    = [(atoms, s)] ->
  (dicts s !!! info (objs s !!! atoms)) !! "calculator_parameters" = None ->
  existsb class_resolved
    (trace (get_potential_energy handle G calculator in_file out_file w)) = true ->
  outcome (get_potential_energy handle G calculator in_file out_file w)
    = inl (KeyError "calculator_parameters") /\
  existsb instantiated
    (trace (get_potential_energy handle G calculator in_file out_file w)) = false.
Proof.
  apply (get_potential_energy_without_parameters handle G calculator in_file out_file w).
Qed.

End Further.

(** ** The further properties on runs in the concrete world *)

(** The caller holds structure [a] at address 0, with metadata [info]
    and, if given, parameters (at address 0 of the dictionaries). *)
Definition holding_with (info : gmap string val) (parameters : option (gmap string val))
    (a : Atoms) : world Demo.env :=
  World (Demo.load (Demo.Stored a info parameters) (Store ∅ ∅ ∅)).2
        (ext (Demo.start a Demo.primitive)).

(** A database that refuses every write; the manager answers
    [suppress] on leaving. *)
Definition refusing_writes (suppress : bool) (h : handler Demo.env) : handler Demo.env :=
  fun X c =>
    match c in call X0
          return (world Demo.env -> (exn + X0) * world Demo.env) ->
                 world Demo.env -> (exn + X0) * world Demo.env with
    | update_bulk_entry _ _ => fun _ w => (inl (DatabaseError 1), w)
    | db_exit _ _ => fun _ w => (inr suppress, w)
    | _ => fun otherwise => otherwise
    end (h X c).

Lemma holding_parameters :
  dicts (heap (Demo.holding Demo.bulk Demo.primitive)) !! 0
  = Some Demo.espresso_parameters.
Proof. vm_compute. reflexivity. Qed.

Definition without_ckutil_run :=
  catflow_relaxation Demo.handle (import_optional true false) None None None
    (Demo.start Demo.bulk Demo.primitive).

Lemma periodic_relaxation_needs_ckutil_witness :
  ckutil_bound (import_optional true false) = false /\
  periodic_input (observations (trace without_ckutil_run)) /\
  outcome without_ckutil_run = inl (NameError "ckutil") /\
  length (computations (observations (trace without_ckutil_run))) = 1 /\
  resymmetrizations (observations (trace without_ckutil_run)) = [] /\
  nothing_came_out (observations (trace without_ckutil_run)).
Proof.
  assert (H1 : ckutil_bound (import_optional true false) = false) by reflexivity.
  assert (H2 : periodic_input (observations (trace without_ckutil_run)))
    by (vm_compute; reflexivity).
  split; [exact H1 |]. split; [exact H2 |].
  exact (periodic_relaxation_needs_ckutil Demo.handle (import_optional true false)
           None None None (Demo.start Demo.bulk Demo.primitive) H1 H2).
Defined.

Definition empty_log_run :=
  catflow_relaxation Demo.handle Demo.both None None None
    (World (Store ∅ ∅ ∅)
       (Demo.Env (<["pw0.pwo" := []]> (Demo.disk Demo.slab))
          (Demo.Stored Demo.primitive ∅ None) false [])).

Lemma empty_log_ends_the_relaxation_witness :
  let r := default ([], Store ∅ ∅ ∅) (trajectory_read (observations (trace empty_log_run))) in
  In (Trajectory [] r.2) (observations (trace empty_log_run)) /\
  outcome empty_log_run = inl IndexError /\
  handed_over_lists (observations (trace empty_log_run)) = [].
Proof.
  cbv zeta.
  set (r := default ([], Store ∅ ∅ ∅)
              (trajectory_read (observations (trace empty_log_run)))).
  assert (Hr : trajectory_read (observations (trace empty_log_run)) = Some ([], r.2))
    by (vm_compute; reflexivity).
  apply trajectory_read_In in Hr.
  split; [exact Hr |].
  exact (empty_log_ends_the_relaxation Demo.handle Demo.both None None None _ r.2 Hr).
Defined.

Lemma relaxation_without_parameters_fails_at_once_witness :
  let w := holding_with ∅ None Demo.slab in
  (dicts (heap w) !!! info (objs (heap w) !!! 0)) !! "calculator_parameters" = None /\
  failed_at_once (KeyError "calculator_parameters") w
    (catflow_relaxation Demo.handle Demo.both (Some 0) None None w).
Proof.
  cbv zeta.
  assert (H : (dicts (heap (holding_with ∅ None Demo.slab))
                 !!! info (objs (heap (holding_with ∅ None Demo.slab)) !!! 0))
                !! "calculator_parameters" = None) by (vm_compute; reflexivity).
  split; [exact H |].
  exact (relaxation_without_parameters_fails_at_once Demo.handle Demo.both 0 None _ H).
Defined.

Definition nameless_parameters : gmap string val := <["ecutwfc" := VInt 500]> ∅.

Lemma relaxation_without_calculator_name_fails_at_once_witness :
  let w := holding_with ∅ (Some nameless_parameters) Demo.slab in
  popped_from (Some 0) None (heap w) = Some 0 /\
  (dicts (heap w) !!! 0) !! "calculator_name" = None /\
  failed_at_once (KeyError "calculator_name") w
    (catflow_relaxation Demo.handle Demo.both (Some 0) None None w).
Proof.
  cbv zeta.
  assert (H1 : popped_from (Some 0) None
                 (heap (holding_with ∅ (Some nameless_parameters) Demo.slab)) = Some 0)
    by (vm_compute; reflexivity).
  assert (H2 : (dicts (heap (holding_with ∅ (Some nameless_parameters) Demo.slab)) !!! 0)
                 !! "calculator_name" = None) by (vm_compute; reflexivity).
  split; [exact H1 |]. split; [exact H2 |].
  exact (relaxation_without_calculator_name_fails_at_once Demo.handle Demo.both
           0 None 0 _ H1 H2).
Defined.

Lemma Demo_handle_resolves name : resolves Demo.handle name.
Proof. intros w. exists name. reflexivity. Qed.

Definition parameters_with_calc_file : gmap string val :=
  <["calc_file" := VStr "x.pwi"]> ∅.

Lemma calc_file_among_the_parameters_is_a_type_error_witness :
  let w := holding_with ∅ (Some parameters_with_calc_file) Demo.slab in
  let run := catflow_relaxation Demo.handle Demo.both (Some 0) (Some "decaf.Espresso")
               (Some 0) w in
  (dicts (heap w) !!! 0) !! "calc_file" = Some (VStr "x.pwi") /\
  outcome run = inl (TypeError "got multiple values for keyword argument") /\
  calculators (observations (trace run)) = [] /\
  computations (observations (trace run)) = [].
Proof.
  cbv zeta.
  assert (H : (dicts (heap (holding_with ∅ (Some parameters_with_calc_file) Demo.slab))
                 !!! 0) !! "calc_file" = Some (VStr "x.pwi")) by (vm_compute; reflexivity).
  split; [exact H |].
  exact (calc_file_among_the_parameters_is_a_type_error Demo.handle Demo.both
           0 "decaf.Espresso" 0 (VStr "x.pwi") _
           (Demo_handle_resolves "decaf.Espresso") H).
Defined.

Lemma entries_of_dictionaries_are_kept_witness :
  let w := Demo.holding Demo.bulk Demo.primitive in
  dicts (heap w) !! 0 = Some Demo.espresso_parameters /\
  entries_kept 0 Demo.espresso_parameters
    (heap (final (invoke Demo.handle Demo.both
                    (call_catflow_relaxation (Some 0) None None) w))).
Proof.
  cbv zeta.
  pose proof holding_parameters as H.
  split; [exact H |].
  exact (entries_of_dictionaries_are_kept Demo.handle Demo.both
           (call_catflow_relaxation (Some 0) None None) _ 0 _ Demo_handle_frame H).
Defined.

Lemma other_dictionaries_are_untouched_witness :
  let w := Demo.holding Demo.bulk Demo.primitive in
  let m := default ∅ (dicts (heap w) !! 1) in
  1 <> 0 /\
  dicts (heap w) !! 1 = Some m /\
  dicts (heap (final (invoke Demo.handle Demo.both
                        (call_catflow_relaxation (Some 0) None (Some 0)) w))) !! 1
    = Some m.
Proof.
  cbv zeta.
  set (m := default ∅ (dicts (heap (Demo.holding Demo.bulk Demo.primitive)) !! 1)).
  assert (H0 : 1 <> 0) by discriminate.
  assert (H : dicts (heap (Demo.holding Demo.bulk Demo.primitive)) !! 1 = Some m)
    by (vm_compute; reflexivity).
  split; [exact H0 |]. split; [exact H |].
  exact (other_dictionaries_are_untouched Demo.handle Demo.both
           (call_catflow_relaxation (Some 0) None (Some 0)) _ 1 m H0 Demo_handle_frame H).
Defined.

Definition refused_run :=
  catflow_relaxation (refusing_writes false Demo.handle) Demo.both None None None
    (Demo.start Demo.slab Demo.primitive).

Lemma failed_write_goes_through_the_manager_witness :
  head (omap write_failure (trace refused_run)) = Some (DatabaseError 1) /\
  exists answer,
    omap manager_left (trace refused_run) = [(Some (DatabaseError 1), answer)] /\
    match answer with
    | inr true => existsb is_encode (trace refused_run) = true
    | inr false => outcome refused_run = inl (DatabaseError 1)
    | inl e' => outcome refused_run = inl e'
    end.
Proof.
  assert (H : head (omap write_failure (trace refused_run)) = Some (DatabaseError 1))
    by (vm_compute; reflexivity).
  split; [exact H |].
  exact (failed_write_goes_through_the_manager (refusing_writes false Demo.handle)
           Demo.both None None None (Demo.start Demo.slab Demo.primitive)
           (DatabaseError 1) H).
Defined.

Definition held_with_parameters_run :=
  catflow_relaxation Demo.handle Demo.both (Some 0) None (Some 0)
    (Demo.holding Demo.bulk Demo.primitive).

Lemma second_calculator_gets_the_parameters_and_scf_witness :
  let cs := calculators (observations (trace held_with_parameters_run)) in
  let first := nth 0 cs (0, None, ∅) in
  let second := nth 1 cs (0, None, ∅) in
  dicts (heap (Demo.holding Demo.bulk Demo.primitive)) !! 0
    = Some Demo.espresso_parameters /\
  cs = [first; second] /\
  second.2 = <["calculation" := VStr "scf"]> first.2.
Proof.
  cbv zeta.
  set (cs := calculators (observations (trace held_with_parameters_run))).
  pose proof holding_parameters as H.
  assert (Hcs : cs = [nth 0 cs (0, None, ∅); nth 1 cs (0, None, ∅)])
    by (vm_compute; reflexivity).
  split; [exact H |]. split; [exact Hcs |].
  exact (second_calculator_gets_the_parameters_and_scf Demo.handle Demo.both
           (Some 0) None 0 _ _ _ _ Demo_handle_frame H Hcs).
Defined.

Lemma bulk_relaxation_leaves_scf_in_the_parameters_witness :
  let w := Demo.holding Demo.bulk Demo.primitive in
  let run := catflow_relaxation Demo.handle Demo.both (Some 0) (Some "decaf.Espresso")
               (Some 0) w in
  dicts (heap w) !! 0 = Some Demo.espresso_parameters /\
  dicts (heap (final run)) !! 0 =
  Some (match resymmetrizations (observations (trace run)) with
        | [] => Demo.espresso_parameters
        | _ :: _ => <["calculation" := VStr "scf"]> Demo.espresso_parameters
        end).
Proof.
  cbv zeta.
  pose proof holding_parameters as H.
  split; [exact H |].
  exact (bulk_relaxation_leaves_scf_in_the_parameters Demo.handle Demo.both
           (Some 0) "decaf.Espresso" 0 _ _ Demo_handle_frame H).
Defined.

Definition energy_without_parameters_run :=
  get_potential_energy Demo.handle Demo.both "decaf.Espresso" None None
    (World (Store ∅ ∅ ∅)
       (Demo.Env (<["input.traj" := [Demo.Stored Demo.slab ∅ None]]> ∅)
          (Demo.Stored Demo.primitive ∅ None) false [])).

Lemma energy_without_parameters_is_a_key_error_witness :
  let t := trace energy_without_parameters_run in
  let r := default (0, Store ∅ ∅ ∅) (head (omap structure_read_in t)) in
  omap structure_read_in t = [(r.1, r.2)] /\
  (dicts r.2 !!! info (objs r.2 !!! r.1)) !! "calculator_parameters" = None /\
  existsb class_resolved t = true /\
  outcome energy_without_parameters_run = inl (KeyError "calculator_parameters") /\
  existsb instantiated t = false.
Proof.
  cbv zeta.
  set (r := default (0, Store ∅ ∅ ∅)
              (head (omap structure_read_in (trace energy_without_parameters_run)))).
  assert (H1 : omap structure_read_in (trace energy_without_parameters_run)
               = [(r.1, r.2)]) by (vm_compute; reflexivity).
  assert (H2 : (dicts r.2 !!! info (objs r.2 !!! r.1)) !! "calculator_parameters" = None)
    by (vm_compute; reflexivity).
  assert (H3 : existsb class_resolved (trace energy_without_parameters_run) = true)
    by (vm_compute; reflexivity).
  split; [exact H1 |]. split; [exact H2 |]. split; [exact H3 |].
  exact (energy_without_parameters_is_a_key_error Demo.handle Demo.both
           "decaf.Espresso" None None _ r.1 r.2 H1 H2 H3).
Defined.

(** With a manager that swallows the exception the run returns. *)
Example refused_and_swallowed_run_returns :
  outcome (catflow_relaxation (refusing_writes true Demo.handle) Demo.both None None None
             (Demo.start Demo.slab Demo.primitive))
  = inr "atoms,atoms".
Proof. vm_compute. reflexivity. Qed.
